(** * Arbitrage pricers: box spread and calendar spread

    A shallow embedding of [arbitrage_logic.py].  Python values are modelled
    as they are at run time: [float] is IEEE binary64 (the kernel's primitive
    floats, round-to-nearest-even as in CPython), [int] is an unbounded
    integer, a leg is a dictionary from strings to values and [leg_data] is a
    list of legs.  A call either returns a float or raises. *)

From Stdlib Require Import ZArith Lia Floats QArith Qabs Qpower Bool.
From stdpp Require Import gmap strings list.

Local Open Scope Z_scope.
Set Warnings "-inexact-float".

(** ** Python values and exceptions *)

Inductive value : Type :=
  | VNone
  | VFloat (f : float)
  | VInt (z : Z)
  | VStr (s : string).

Inductive exn : Type :=
  | IndexError
  | KeyError
  | TypeError
  | OverflowError.

Inductive result (A : Type) : Type :=
  | Ok (a : A)
  | Raise (e : exn).
Arguments Ok {A} a.
Arguments Raise {A} e.

Definition bind {A B : Type} (r : result A) (k : A -> result B) : result B :=
  match r with
  | Ok a => k a
  | Raise e => Raise e
  end.

Notation "'let*' x ':=' r 'in' k" := (bind r (fun x => k))
  (at level 10, x name, r at level 100, k at level 200).

(** ** Primitive operations of the interpreter *)

(** [float(z)] for an [int]: correctly rounded to nearest even; an int whose
    rounded value leaves the binary64 range raises [OverflowError]. *)
Definition float_of_int (z : Z) : result float :=
  match binary_normalize prec emax z 0 false with
  | S754_infinity _ => Raise OverflowError
  | sf => Ok (SF2Prim sf)
  end.

(** The left operand of a float operation: a float as it is, an int
    through [float_of_int]; [None] and strings are not numbers. *)
Definition to_float (v : value) : result float :=
  match v with
  | VFloat f => Ok f
  | VInt z => float_of_int z
  | VNone | VStr _ => Raise TypeError
  end.

(** [v * x] where [x] is a float. *)
Definition mul_float (v : value) (x : float) : result float :=
  let* f := to_float v in Ok (f * x)%float.

(** [z - x] where [z] is an int and [x] a float. *)
Definition int_sub_float (z : Z) (x : float) : result float :=
  let* f := float_of_int z in Ok (f - x)%float.

Abbreviation dict := (gmap string value).

(** [d.get(k)]: the value under [k], [None] when the key is absent. *)
Definition get (d : dict) (k : string) : value :=
  match d !! k with
  | Some v => v
  | None => VNone
  end.

(** [d[k]] *)
Definition getitem (d : dict) (k : string) : result value :=
  match d !! k with
  | Some v => Ok v
  | None => Raise KeyError
  end.

(** [l[i]] for a non-negative literal index. *)
Definition index (l : list dict) (i : nat) : result dict :=
  match l !! i with
  | Some d => Ok d
  | None => Raise IndexError
  end.

Definition is_none (v : value) : bool :=
  match v with
  | VNone => true
  | _ => false
  end.

(** ** The two pricers *)

(** The condition of the guard in the loop over [leg_data]. *)
Definition leg_incomplete (leg : dict) : bool :=
  is_none (get leg "ask_price") || is_none (get leg "bid_price").

(** The loop [for i, leg in enumerate(leg_data)]: [true] when some
    iteration takes the early [return -math.inf]. *)
Fixpoint guard_returns (leg_data : list dict) : bool :=
  match leg_data with
  | [] => false
  | leg :: rest => if leg_incomplete leg then true else guard_returns rest
  end.

Definition calculate_box_spread_arbitrage
    (k1 k2 : Z) (leg_data : list dict)
    (btc_usd_price transaction_fee_rate : float) : result float :=
  if guard_returns leg_data then Ok neg_infinity
  else
    let* l0 := index leg_data 0 in
    let* a0 := getitem l0 "ask_price" in
    let* leg0_cost_usd := mul_float a0 btc_usd_price in
    let* l1 := index leg_data 1 in
    let* b1 := getitem l1 "bid_price" in
    let* leg1_revenue_usd := mul_float b1 btc_usd_price in
    let* l2 := index leg_data 2 in
    let* b2 := getitem l2 "bid_price" in
    let* leg2_revenue_usd := mul_float b2 btc_usd_price in
    let* l3 := index leg_data 3 in
    let* a3 := getitem l3 "ask_price" in
    let* leg3_cost_usd := mul_float a3 btc_usd_price in
    let net_premium_usd :=
      ((leg0_cost_usd + leg3_cost_usd) - (leg1_revenue_usd + leg2_revenue_usd))%float in
    let theoretical_value_usd := k2 - k1 in
    let total_premiums_for_fees :=
      (leg0_cost_usd + leg1_revenue_usd + leg2_revenue_usd + leg3_cost_usd)%float in
    let transaction_fees_usd := (total_premiums_for_fees * transaction_fee_rate)%float in
    let* d := int_sub_float theoretical_value_usd net_premium_usd in
    Ok (d - transaction_fees_usd)%float.

Definition calculate_calendar_spread_arbitrage
    (option_type : string) (strike : Z) (shorter_leg_data longer_leg_data : dict)
    (btc_usd_price transaction_fee_rate : float) : result float :=
  if is_none (get shorter_leg_data "bid_price")
     || is_none (get shorter_leg_data "ask_price")
     || is_none (get longer_leg_data "bid_price")
     || is_none (get longer_leg_data "ask_price")
  then Ok neg_infinity
  else
    let* sb := getitem shorter_leg_data "bid_price" in
    let* shorter_leg_revenue_usd := mul_float sb btc_usd_price in
    let* la := getitem longer_leg_data "ask_price" in
    let* longer_leg_cost_usd := mul_float la btc_usd_price in
    let premium_diff_usd := (shorter_leg_revenue_usd - longer_leg_cost_usd)%float in
    let total_premiums_for_fees := (shorter_leg_revenue_usd + longer_leg_cost_usd)%float in
    let transaction_fees_usd := (total_premiums_for_fees * transaction_fee_rate)%float in
    Ok (premium_diff_usd - transaction_fees_usd)%float.

(** ** Test data of [test_box_arbitrage_calculator.py] *)

(** The dictionary [{'ask_price': ask, 'bid_price': bid}]. *)
Definition quote (ask bid : value) : dict :=
  <["ask_price" := ask]> (<["bid_price" := bid]> ∅).

(** The legs of [test_box_spread_positive_profit]. *)
Definition legs_positive : list dict :=
  [ quote (VFloat 0.0050) (VFloat 0.0049);
    quote (VFloat 0.0021) (VFloat 0.0020);
    quote (VFloat 0.0011) (VFloat 0.0010);
    quote (VFloat 0.0041) (VFloat 0.0040) ].

(** The legs of [test_box_spread_negative_profit]. *)
Definition legs_negative : list dict :=
  [ quote (VFloat 0.0055) (VFloat 0.0054);
    quote (VFloat 0.0015) (VFloat 0.0014);
    quote (VFloat 0.0008) (VFloat 0.0007);
    quote (VFloat 0.0048) (VFloat 0.0047) ].

(** The legs of [test_box_spread_missing_price_data]: the bid price of leg 2
    is the string "*". *)
Definition legs_placeholder : list dict :=
  [ quote (VFloat 0.0050) (VFloat 0.0049);
    quote (VFloat 0.0021) (VFloat 0.0020);
    quote (VFloat 0.0011) (VStr "*");
    quote (VFloat 0.0041) (VFloat 0.0040) ].

(** Quotes of the same shape on which the order of the float operations
    shows in the last digits of the result. *)
Definition legs_rounding : list dict :=
  [ quote (VFloat 0.0186) (VFloat 0.0185);
    quote (VFloat 0.0009) (VFloat 0.0008);
    quote (VFloat 0.0137) (VFloat 0.0136);
    quote (VFloat 0.0057) (VFloat 0.0056) ].

(** Leg 2 without a [bid_price] key. *)
Definition legs_missing : list dict :=
  [ quote (VFloat 0.0050) (VFloat 0.0049);
    quote (VFloat 0.0021) (VFloat 0.0020);
    {[ "ask_price" := VFloat 0.0011 ]};
    quote (VFloat 0.0041) (VFloat 0.0040) ].

(** ** Vocabulary of the specification *)

(** A price is absent when its key is missing or bound to [None]. *)
Definition absent (d : dict) (k : string) : Prop :=
  d !! k = None \/ d !! k = Some VNone.

(** A numeric value: a float, or an int that [float()] accepts. *)
Definition numeric (v : value) : bool :=
  match to_float v with
  | Ok _ => true
  | Raise _ => false
  end.

(** The float a price field denotes (meaningful for numeric fields). *)
Definition price (d : dict) (k : string) : float :=
  match to_float (get d k) with
  | Ok f => f
  | Raise _ => nan
  end.

Definition ask (d : dict) : float := price d "ask_price".
Definition bid (d : dict) : float := price d "bid_price".

(** Both prices of a leg are present and numeric. *)
Definition priced (d : dict) : bool :=
  numeric (get d "ask_price") && numeric (get d "bid_price").

(** A price is present when its key is bound to something other than [None];
    a quote is complete when both of its prices are present. *)
Definition present (d : dict) (k : string) : Prop :=
  exists v, d !! k = Some v /\ v <> VNone.

Definition complete (d : dict) : Prop :=
  present d "ask_price" /\ present d "bid_price".

(** The closed formula of the box spread with the spot rate factored out of
    the sums, evaluated in float arithmetic. *)
Definition box_spread_factored
    (k1 k2 : Z) (l0 l1 l2 l3 : dict) (spotRate feeRate : float) : result float :=
  let* t := float_of_int (k2 - k1) in
  Ok (t - ((ask l0 + ask l3) - (bid l1 + bid l2)) * spotRate
        - (ask l0 + bid l1 + bid l2 + ask l3) * spotRate * feeRate)%float.

(** The five valuation steps: each leg is converted first. *)
Definition box_spread_steps
    (k1 k2 : Z) (l0 l1 l2 l3 : dict) (spotRate feeRate : float) : result float :=
  let leg0cost := (ask l0 * spotRate)%float in
  let leg1revenue := (bid l1 * spotRate)%float in
  let leg2revenue := (bid l2 * spotRate)%float in
  let leg3cost := (ask l3 * spotRate)%float in
  let netPremium := ((leg0cost + leg3cost) - (leg1revenue + leg2revenue))%float in
  let feeBase := (leg0cost + leg1revenue + leg2revenue + leg3cost)%float in
  let fees := (feeBase * feeRate)%float in
  let* theoreticalValue := float_of_int (k2 - k1) in
  Ok (theoreticalValue - netPremium - fees)%float.

(** The exact rational a finite float stands for. *)
Definition SF2Q (x : spec_float) : option Q :=
  match x with
  | S754_zero _ => Some 0%Q
  | S754_finite s m e =>
      Some ((if s then -1 else 1) * inject_Z (Z.pos m) * Qpower 2 e)%Q
  | S754_infinity _ | S754_nan => None
  end.

Definition F2Q (x : float) : option Q := SF2Q (Prim2SF x).

(** [|x - y| <= tol] over the rationals. *)
Definition Qwithin (tol y : Q) (x : float) : bool :=
  match F2Q x with
  | Some q => Qle_bool (Qabs (q - y)) tol
  | None => false
  end.

(** The fee bases: the sum of the converted leg prices the fee rate applies
    to ([total_premiums_for_fees] in both pricers). *)
Definition box_fee_base (l0 l1 l2 l3 : dict) (spotRate : float) : float :=
  (ask l0 * spotRate + bid l1 * spotRate + bid l2 * spotRate + ask l3 * spotRate)%float.

Definition calendar_fee_base (shorterLeg longerLeg : dict) (spotRate : float) : float :=
  (bid shorterLeg * spotRate + ask longerLeg * spotRate)%float.

(** The net premium of the box spread ([net_premium_usd]). *)
Definition box_net_premium (l0 l1 l2 l3 : dict) (spotRate : float) : float :=
  ((ask l0 * spotRate + ask l3 * spotRate)
   - (bid l1 * spotRate + bid l2 * spotRate))%float.

(** ** Binary64 rounding, as [SpecFloat] computes it

    The definitions below describe the results of [binary_round] and of the
    float operations by integers, so that the order of floats becomes the
    order of [Z]. *)

(** Round to nearest, ties to even: the integer nearest to [m / 2^k]. *)
Definition rne (m k : Z) : Z :=
  let q := m / 2 ^ k in
  let r := m mod 2 ^ k in
  match 2 * r ?= 2 ^ k with
  | Lt => q
  | Gt => q + 1
  | Eq => if Z.even q then q else q + 1
  end.

(** The result of rounding a positive exact value [m * 2^e] that needs no
    shift to the left. *)
Definition rounded (s : bool) (q E : Z) : spec_float :=
  if q =? 0 then S754_zero s
  else if q <? 2 ^ 53 then
    (if E <=? 971 then S754_finite s (Z.to_pos q) E else S754_infinity s)
  else
    (if E + 1 <=? 971 then S754_finite s (Z.to_pos (2 ^ 52)) (E + 1)
     else S754_infinity s).

(** The integer a non-NaN float is worth in units of 2^-1074, with the
    infinities at +-2^1024. *)
Definition ord (x : spec_float) : Z :=
  match x with
  | S754_zero _ | S754_nan => 0
  | S754_finite s m e => (if s then -1 else 1) * (Z.pos m * 2 ^ (e + 1074))
  | S754_infinity s => (if s then -1 else 1) * 2 ^ 2098
  end.

(** The integer the infinities stand at: 2^1024 in units of 2^-1074. *)
Definition INF : Z := 2 ^ 2098.

(** The integer of a valid finite float, without its sign. *)
Definition mag (m : positive) (e : Z) : Z := Z.pos m * 2 ^ (e + 1074).

(** Classification of a specification float. *)
Definition is_nan_sf (x : spec_float) : bool :=
  match x with
  | S754_nan => true
  | _ => false
  end.

Definition is_finite_sf (x : spec_float) : bool :=
  match x with
  | S754_zero _ | S754_finite _ _ _ => true
  | S754_infinity _ | S754_nan => false
  end.

(** Rounding of the integer [z] counted in units of 2^-1074. *)
Definition round_int (z : Z) : Z :=
  ord (binary_normalize prec emax z (-1074) false).

(** The integer of the product of the positive float of mantissa [mc] and
    exponent [ec] with the positive float of mantissa [m] and exponent [e]. *)
Definition mul_ord (mc : positive) (ec : Z) (m : positive) (e : Z) : Z :=
  ord (binary_round prec emax false (mc * m) (ec + e)).

(** ** Dictionaries, the guard and the interpreter's operations *)

Lemma is_none_get (d : dict) (k : string) :
  is_none (get d k) = true <-> absent d k.
Proof.
  unfold get, absent.
  destruct (d !! k) as [[| f | z | s]|]; simpl; split; intros H;
    try discriminate; auto; destruct H as [H|H]; congruence.
Qed.

Lemma getitem_get (d : dict) (k : string) :
  is_none (get d k) = false -> getitem d k = Ok (get d k).
Proof.
  unfold get, getitem. destruct (d !! k); [reflexivity | discriminate].
Qed.

Lemma leg_incomplete_absent (d : dict) :
  leg_incomplete d = true <-> absent d "ask_price" \/ absent d "bid_price".
Proof.
  unfold leg_incomplete. rewrite orb_true_iff, !is_none_get. reflexivity.
Qed.

Lemma guard_returns_Exists (leg_data : list dict) :
  guard_returns leg_data = true <->
  Exists (fun leg => leg_incomplete leg = true) leg_data.
Proof.
  induction leg_data as [|leg rest IH]; simpl.
  - split; [discriminate | intros H; inversion H].
  - destruct (leg_incomplete leg) eqn:E.
    + split; auto.
    + rewrite IH. split; [intros H; now right|].
      intros H. inversion H; subst; [congruence | assumption].
Qed.

Lemma guard_returns_Forall (leg_data : list dict) :
  guard_returns leg_data = false <->
  Forall (fun leg => leg_incomplete leg = false) leg_data.
Proof.
  induction leg_data as [|leg rest IH]; simpl.
  - split; auto.
  - destruct (leg_incomplete leg) eqn:E.
    + split; [discriminate | intros H; inversion H; congruence].
    + rewrite IH. split; [intros H; now constructor | intros H; now inversion H].
Qed.

Lemma numeric_not_none (v : value) : numeric v = true -> is_none v = false.
Proof. destruct v; simpl; auto; discriminate. Qed.

Lemma priced_complete (d : dict) : priced d = true -> leg_incomplete d = false.
Proof.
  unfold priced, leg_incomplete. rewrite andb_true_iff. intros [Ha Hb].
  now rewrite (numeric_not_none _ Ha), (numeric_not_none _ Hb).
Qed.

Lemma to_float_price (d : dict) (k : string) :
  numeric (get d k) = true -> to_float (get d k) = Ok (price d k).
Proof.
  unfold numeric, price. destruct (to_float (get d k)); [reflexivity | discriminate].
Qed.

(** [d[k] * x] on a numeric field. *)
Lemma getitem_mul_float (d : dict) (k : string) (x : float) :
  numeric (get d k) = true ->
  (let* v := getitem d k in mul_float v x) = Ok (price d k * x)%float.
Proof.
  intros H. rewrite (getitem_get _ _ (numeric_not_none _ H)). simpl.
  unfold mul_float. now rewrite (to_float_price _ _ H).
Qed.

Lemma priced_ask (d : dict) : priced d = true -> numeric (get d "ask_price") = true.
Proof. unfold priced. rewrite andb_true_iff. tauto. Qed.

Lemma priced_bid (d : dict) : priced d = true -> numeric (get d "bid_price") = true.
Proof. unfold priced. rewrite andb_true_iff. tauto. Qed.

(** On four priced legs the code follows the five valuation steps. *)
Lemma box_spread_on_priced (k1 k2 : Z) (l0 l1 l2 l3 : dict) (s fee : float) :
  priced l0 = true -> priced l1 = true -> priced l2 = true -> priced l3 = true ->
  calculate_box_spread_arbitrage k1 k2 [l0; l1; l2; l3] s fee
  = box_spread_steps k1 k2 l0 l1 l2 l3 s fee.
Proof.
  intros H0 H1 H2 H3. unfold calculate_box_spread_arbitrage.
  assert (G : guard_returns [l0; l1; l2; l3] = false).
  { apply guard_returns_Forall. repeat constructor; now apply priced_complete. }
  rewrite G. unfold index. simpl.
  generalize (getitem_mul_float l0 "ask_price" s (priced_ask _ H0)).
  generalize (getitem_mul_float l1 "bid_price" s (priced_bid _ H1)).
  generalize (getitem_mul_float l2 "bid_price" s (priced_bid _ H2)).
  generalize (getitem_mul_float l3 "ask_price" s (priced_ask _ H3)).
  fold (ask l0) (bid l1) (bid l2) (ask l3).
  destruct (getitem l0 "ask_price") as [a0|]; simpl; [|discriminate].
  intros E3 E2 E1 E0. rewrite E0. simpl.
  destruct (getitem l1 "bid_price") as [b1|]; simpl in *; [|discriminate].
  rewrite E1. simpl.
  destruct (getitem l2 "bid_price") as [b2|]; simpl in *; [|discriminate].
  rewrite E2. simpl.
  destruct (getitem l3 "ask_price") as [a3|]; simpl in *; [|discriminate].
  rewrite E3. simpl.
  unfold box_spread_steps, int_sub_float.
  destruct (float_of_int (k2 - k1)); reflexivity.
Qed.

Lemma complete_not_incomplete (d : dict) :
  complete d <-> leg_incomplete d = false.
Proof.
  unfold complete, present, leg_incomplete, get. rewrite orb_false_iff.
  split.
  - intros [[a [Ea Ha]] [b [Eb Hb]]]. rewrite Ea, Eb.
    destruct a, b; simpl; auto; congruence.
  - destruct (d !! "ask_price") as [a|], (d !! "bid_price") as [b|];
      simpl; intros [Ha Hb]; try discriminate.
    split; eexists; (split; [reflexivity|]); intros ->; discriminate.
Qed.

Lemma Forall_complete_guard (leg_data : list dict) :
  Forall complete leg_data -> guard_returns leg_data = false.
Proof.
  intros H. apply guard_returns_Forall.
  eapply Forall_impl; [exact H|]. intros d. apply complete_not_incomplete.
Qed.

Lemma absent_guard (leg_data : list dict) (i : nat) (leg : dict) :
  leg_data !! i = Some leg ->
  absent leg "ask_price" \/ absent leg "bid_price" ->
  guard_returns leg_data = true.
Proof.
  intros Hi Ha. apply guard_returns_Exists, Exists_exists.
  exists leg. split; [eapply list_elem_of_lookup_2, Hi | now apply leg_incomplete_absent].
Qed.

(** Past the guard, the result is decided by the first four entries. *)
Lemma box_spread_take4 (k1 k2 : Z) (leg_data : list dict) (s fee : float) :
  guard_returns leg_data = false ->
  guard_returns (take 4 leg_data) = false /\
  calculate_box_spread_arbitrage k1 k2 leg_data s fee
  = calculate_box_spread_arbitrage k1 k2 (take 4 leg_data) s fee.
Proof.
  intros G.
  assert (G4 : guard_returns (take 4 leg_data) = false).
  { apply guard_returns_Forall. apply guard_returns_Forall in G.
    now apply Forall_take. }
  split; [exact G4|].
  unfold calculate_box_spread_arbitrage. rewrite G, G4.
  destruct leg_data as [|l0 [|l1 [|l2 [|l3 rest]]]]; reflexivity.
Qed.

(** ** Binary64 rounding: shifts and the nearest-even choice *)

(** n-fold halving as SpecFloat iterates it *)
Lemma iter_pos_nat {A : Type} (f : A -> A) (p : positive) (x : A) :
  SpecFloat.iter_pos f p x = Nat.iter (Pos.to_nat p) f x.
Proof.
  revert x. induction p as [p IH | p IH |]; intros x; cbn [SpecFloat.iter_pos].
  - rewrite !IH. rewrite Pos2Nat.inj_xI.
    replace (S (2 * Pos.to_nat p)) with (Pos.to_nat p + (Pos.to_nat p + 1))%nat by lia.
    rewrite !Nat.iter_add. simpl. reflexivity.
  - rewrite !IH. rewrite Pos2Nat.inj_xO.
    replace (2 * Pos.to_nat p)%nat with (Pos.to_nat p + Pos.to_nat p)%nat by lia.
    now rewrite Nat.iter_add.
  - reflexivity.
Qed.

Lemma digits2_log2 (p : positive) :
  Z.pos (digits2_pos p) = Z.log2 (Z.pos p) + 1.
Proof.
  induction p as [p IH | p IH |]; simpl digits2_pos.
  - rewrite Pos2Z.inj_succ, IH. 
    change (Z.pos p~1) with (2 * Z.pos p + 1). rewrite Z.log2_succ_double by lia. lia.
  - rewrite Pos2Z.inj_succ, IH. 
    change (Z.pos p~0) with (2 * Z.pos p). rewrite Z.log2_double by lia. lia.
  - reflexivity.
Qed.

Lemma digits2_bounds (p : positive) :
  2 ^ (Z.pos (digits2_pos p) - 1) <= Z.pos p < 2 ^ Z.pos (digits2_pos p).
Proof.
  rewrite digits2_log2. replace (Z.log2 (Z.pos p) + 1 - 1) with (Z.log2 (Z.pos p)) by lia.
  replace (Z.log2 (Z.pos p) + 1) with (Z.succ (Z.log2 (Z.pos p))) by lia.
  apply Z.log2_spec. lia.
Qed.

Lemma shr_1_spec (m : Z) (r s : bool) :
  0 <= m ->
  shr_1 {| shr_m := m; shr_r := r; shr_s := s |}
  = {| shr_m := m / 2; shr_r := Z.odd m; shr_s := r || s |}.
Proof.
  intros Hm. rewrite <- Z.div2_div.
  destruct m as [|[p|p|]|p]; try lia; reflexivity.
Qed.

Lemma shr_1_iter (m : Z) (n : nat) :
  0 <= m ->
  Nat.iter (S n) shr_1 {| shr_m := m; shr_r := false; shr_s := false |}
  = {| shr_m := m / 2 ^ Z.of_nat (S n);
       shr_r := Z.odd (m / 2 ^ Z.of_nat n);
       shr_s := negb (m mod 2 ^ Z.of_nat n =? 0) |}.
Proof.
  intros Hm. induction n as [|n IH].
  - cbn [Nat.iter]. rewrite shr_1_spec by assumption.
    change (2 ^ Z.of_nat 1) with 2. change (2 ^ Z.of_nat 0) with 1.
    rewrite Z.div_1_r, Z.mod_1_r. reflexivity.
  - change (Nat.iter (S (S n)) shr_1 ?x) with (shr_1 (Nat.iter (S n) shr_1 x)).
    rewrite IH.
    assert (P : 0 < 2 ^ Z.of_nat n) by (apply Z.pow_pos_nonneg; lia).
    assert (E : 2 ^ Z.of_nat (S n) = 2 ^ Z.of_nat n * 2).
    { rewrite Nat2Z.inj_succ, Z.pow_succ_r by lia. lia. }
    rewrite shr_1_spec by (apply Z.div_pos; lia).
    f_equal.
    + rewrite Z.div_div by lia.
      f_equal. rewrite (Nat2Z.inj_succ (S n)), Z.pow_succ_r by lia. lia.
    + rewrite E, Z.rem_mul_r by lia.
      pose proof (Z.mod_pos_bound m (2 ^ Z.of_nat n) P) as B.
      rewrite Zmod_odd.
      destruct (Z.odd (m / 2 ^ Z.of_nat n));
        destruct (Z.eqb_spec (m mod 2 ^ Z.of_nat n) 0) as [E0|E0]; cbn [orb negb];
        symmetry.
      all: try (apply negb_true_iff, Z.eqb_neq; lia).
      all: try (apply negb_false_iff, Z.eqb_eq; lia).
      all: try (apply Z.eqb_neq; lia).
      all: try (apply Z.eqb_eq; lia).
Qed.

Lemma rne_0 (m : Z) : rne m 0 = m.
Proof.
  unfold rne. change (2 ^ 0) with 1. rewrite Z.mod_1_r, Z.div_1_r. reflexivity.
Qed.

(** one shift by [k] followed by the choice of the nearest-even neighbour *)
Lemma shr_round (m e k : Z) :
  0 <= m -> 0 <= k ->
  let '(mrs, e') := shr (shr_record_of_loc m loc_Exact) e k in
  round_nearest_even (shr_m mrs) (loc_of_shr_record mrs) = rne m k
  /\ e' = e + k.
Proof.
  intros Hm Hk. destruct k as [|p|p]; try lia.
  - simpl. rewrite rne_0. split; [reflexivity | lia].
  - cbn [shr shr_record_of_loc]. split; [|reflexivity].
    rewrite iter_pos_nat.
    destruct (Pos2Nat.is_succ p) as [n Hn]. rewrite Hn.
    rewrite shr_1_iter by assumption.
    assert (Ep : Z.pos p = Z.of_nat (S n)) by lia.
    rewrite <- Ep.
    assert (E : 2 ^ Z.pos p = 2 ^ Z.of_nat n * 2).
    { rewrite Ep, Nat2Z.inj_succ, Z.pow_succ_r by lia. lia. }
    assert (P : 0 < 2 ^ Z.of_nat n) by (apply Z.pow_pos_nonneg; lia).
    pose proof (Z.mod_pos_bound m (2 ^ Z.of_nat n) P) as B.
    pose proof (Z.rem_mul_r m (2 ^ Z.of_nat n) 2 ltac:(lia) ltac:(lia)) as R.
    rewrite <- E, Zmod_odd in R.
    unfold rne. cbn [shr_m loc_of_shr_record].
    destruct (Z.odd (m / 2 ^ Z.of_nat n));
      destruct (Z.eqb_spec (m mod 2 ^ Z.of_nat n) 0) as [E0|E0]; cbn [negb];
      cbn [round_nearest_even];
      destruct (Z.compare_spec (2 * (m mod 2 ^ Z.pos p)) (2 ^ Z.pos p));
      try lia; reflexivity.
Qed.

Lemma pow2_pos (k : Z) : 0 <= k -> 0 < 2 ^ k.
Proof. intros. apply Z.pow_pos_nonneg; lia. Qed.

Lemma rne_mono (m1 m2 k : Z) :
  0 <= k -> m1 <= m2 -> rne m1 k <= rne m2 k.
Proof.
  intros Hk Hm. pose proof (pow2_pos k Hk) as P.
  pose proof (Z.div_le_mono m1 m2 (2 ^ k) P Hm) as Hq.
  pose proof (Z.div_mod m1 (2 ^ k) ltac:(lia)) as D1.
  pose proof (Z.div_mod m2 (2 ^ k) ltac:(lia)) as D2.
  pose proof (Z.mod_pos_bound m1 (2 ^ k) P) as B1.
  pose proof (Z.mod_pos_bound m2 (2 ^ k) P) as B2.
  unfold rne.
  destruct (Z.eq_dec (m1 / 2 ^ k) (m2 / 2 ^ k)) as [Eq|Ne].
  - rewrite Eq in *.
    destruct (Z.compare_spec (2 * (m1 mod 2 ^ k)) (2 ^ k));
      destruct (Z.compare_spec (2 * (m2 mod 2 ^ k)) (2 ^ k));
      destruct (Z.even (m2 / 2 ^ k)); lia.
  - destruct (Z.compare_spec (2 * (m1 mod 2 ^ k)) (2 ^ k));
      destruct (Z.compare_spec (2 * (m2 mod 2 ^ k)) (2 ^ k));
      destruct (Z.even (m1 / 2 ^ k)); destruct (Z.even (m2 / 2 ^ k)); lia.
Qed.

Lemma rne_exact (q k : Z) : 0 <= k -> rne (q * 2 ^ k) k = q.
Proof.
  intros Hk. pose proof (pow2_pos k Hk) as P. unfold rne.
  rewrite Z.mod_mul, Z.div_mul by lia.
  destruct (Z.compare_spec (2 * 0) (2 ^ k)); lia.
Qed.

Lemma rne_scale (m k j : Z) :
  0 <= k -> 0 <= j -> rne (m * 2 ^ j) (k + j) = rne m k.
Proof.
  intros Hk Hj. pose proof (pow2_pos k Hk) as P. pose proof (pow2_pos j Hj) as Pj.
  unfold rne. rewrite Z.pow_add_r by assumption.
  rewrite Z.div_mul_cancel_r, Z.mul_mod_distr_r by lia.
  rewrite Z.mul_assoc, <- Zmult_compare_compat_r by lia.
  reflexivity.
Qed.

Lemma rne_le (m k n : Z) : 0 <= k -> m <= n * 2 ^ k -> rne m k <= n.
Proof.
  intros Hk H. rewrite <- (rne_exact n k Hk). now apply rne_mono.
Qed.

Lemma rne_ge (m k n : Z) : 0 <= k -> n * 2 ^ k <= m -> n <= rne m k.
Proof.
  intros Hk H. rewrite <- (rne_exact n k Hk). now apply rne_mono.
Qed.

Lemma fexp_unfold (x : Z) : fexp prec emax x = Z.max (x - 53) (-1074).
Proof. reflexivity. Qed.

Lemma shr_nonpos (mrs : shr_record) (e n : Z) : n <= 0 -> shr mrs e n = (mrs, e).
Proof. destruct n; [reflexivity | lia | reflexivity]. Qed.

Lemma digits2_le (p : positive) (n : Z) :
  Z.pos p < 2 ^ n -> Z.pos (digits2_pos p) <= n.
Proof.
  intros H. pose proof (digits2_bounds p) as [L _].
  destruct (Z.le_gt_cases (Z.pos (digits2_pos p)) n) as [|G]; [assumption|].
  assert (2 ^ n <= 2 ^ (Z.pos (digits2_pos p) - 1)) by (apply Z.pow_le_mono_r; lia).
  lia.
Qed.

Lemma digits2_ge (p : positive) (n : Z) :
  2 ^ (n - 1) <= Z.pos p -> n <= Z.pos (digits2_pos p).
Proof.
  intros H. pose proof (digits2_bounds p) as [_ U].
  destruct (Z.le_gt_cases n (Z.pos (digits2_pos p))) as [|G]; [assumption|].
  assert (2 ^ Z.pos (digits2_pos p) <= 2 ^ (n - 1)) by (apply Z.pow_le_mono_r; lia).
  lia.
Qed.

Lemma rne_digits_bound (m : positive) (e : Z) :
  let E := fexp prec emax (Z.pos (digits2_pos m) + e) in
  e <= E -> 0 <= rne (Z.pos m) (E - e) <= 2 ^ 53.
Proof.
  intros E HE. pose proof (digits2_bounds m) as [_ U]. split.
  - apply rne_ge; [lia|]. simpl. lia.
  - apply rne_le; [lia|].
    rewrite <- Z.pow_add_r by lia.
    assert (Z.pos (digits2_pos m) <= 53 + (E - e)).
    { unfold E. rewrite fexp_unfold. lia. }
    assert (2 ^ Z.pos (digits2_pos m) <= 2 ^ (53 + (E - e))) by (apply Z.pow_le_mono_r; lia).
    lia.
Qed.

Lemma binary_round_aux_rounded (s : bool) (m : positive) (e : Z) :
  let E := fexp prec emax (Z.pos (digits2_pos m) + e) in
  e <= E ->
  binary_round_aux prec emax s (Z.pos m) e loc_Exact
  = rounded s (rne (Z.pos m) (E - e)) E.
Proof.
  intros E HE. unfold binary_round_aux.
  pose proof (rne_digits_bound m e HE) as Bq. fold E in Bq.
  pose proof (shr_round (Z.pos m) e (E - e) ltac:(lia) ltac:(lia)) as S1.
  unfold shr_fexp at 1. cbn [Zdigits2]. fold E.
  destruct (shr (shr_record_of_loc (Z.pos m) loc_Exact) e (E - e)) as [mrs' e'].
  destruct S1 as [-> ->]. replace (e + (E - e)) with E by lia.
  set (q := rne (Z.pos m) (E - e)) in *.
  assert (Emin : -1074 <= E) by (unfold E; rewrite fexp_unfold; lia).
  unfold rounded, shr_fexp.
  destruct (Z.eqb_spec q 0) as [Q0|Q0].
  - rewrite Q0. cbn [Zdigits2]. rewrite shr_nonpos; [reflexivity|].
    rewrite fexp_unfold. lia.
  - destruct (Z.ltb_spec q (2 ^ 53)) as [Lt|Ge].
    + destruct q as [|p|p]; try lia. cbn [Zdigits2].
      rewrite shr_nonpos.
      * cbn [shr_m shr_record_of_loc]. reflexivity.
      * pose proof (digits2_le p 53 Lt). rewrite fexp_unfold. lia.
    + assert (Q : q = 2 ^ 53) by lia. rewrite Q.
      replace (fexp prec emax (Zdigits2 (2 ^ 53) + E) - E) with 1.
      * reflexivity.
      * rewrite fexp_unfold. change (Zdigits2 (2 ^ 53)) with 54. lia.
Qed.

Lemma pow2_split (a b : Z) : 0 <= a -> 0 <= b -> 2 ^ (a + b) = 2 ^ a * 2 ^ b.
Proof. intros. now apply Z.pow_add_r. Qed.

Lemma pow2_le (a b : Z) : 0 <= a <= b -> 2 ^ a <= 2 ^ b.
Proof. intros. apply Z.pow_le_mono_r; lia. Qed.

Lemma ord_rounded (q E : Z) :
  -1074 <= E -> 0 <= q <= 2 ^ 53 -> (-1074 < E -> 2 ^ 52 <= q) ->
  ord (rounded false q E) = Z.min (q * 2 ^ (E + 1074)) (2 ^ 2098).
Proof.
  intros HE Hq Hn. unfold rounded.
  pose proof (pow2_pos (E + 1074) ltac:(lia)) as PX.
  destruct (Z.eqb_spec q 0) as [Q0|Q0].
  - subst q. cbn [ord]. pose proof (pow2_pos 2098 ltac:(lia)). lia.
  - destruct (Z.ltb_spec q (2 ^ 53)) as [Lt|Ge].
    + destruct (Z.leb_spec E 971) as [Le|Gt]; cbn [ord].
      * rewrite Z2Pos.id by lia.
        assert (2 ^ 53 * 2 ^ (E + 1074) <= 2 ^ 2098).
        { rewrite <- pow2_split by lia. apply pow2_le. lia. }
        assert (q * 2 ^ (E + 1074) <= 2 ^ 53 * 2 ^ (E + 1074)) by nia.
        lia.
      * assert (2 ^ 2098 <= 2 ^ 52 * 2 ^ (E + 1074)).
        { rewrite <- pow2_split by lia. apply pow2_le. lia. }
        assert (2 ^ 52 * 2 ^ (E + 1074) <= q * 2 ^ (E + 1074)).
        { apply Z.mul_le_mono_nonneg_r; [lia | apply Hn; lia]. }
        lia.
    + assert (Q : q = 2 ^ 53) by lia. rewrite Q.
      destruct (Z.leb_spec (E + 1) 971) as [Le|Gt]; cbn [ord].
      * rewrite Z2Pos.id by (apply pow2_pos; lia).
        rewrite <- !pow2_split by lia.
        replace (52 + (E + 1 + 1074)) with (53 + (E + 1074)) by lia.
        assert (2 ^ (53 + (E + 1074)) <= 2 ^ 2098) by (apply pow2_le; lia).
        lia.
      * rewrite <- !pow2_split by lia.
        assert (2 ^ 2098 <= 2 ^ (53 + (E + 1074))) by (apply pow2_le; lia).
        lia.
Qed.

(** The magnitude [digits m + e] orders exact positive values. *)
Lemma magnitude_mono (m1 m2 : positive) (e1 e2 e0 : Z) :
  e0 <= e1 -> e0 <= e2 ->
  Z.pos m1 * 2 ^ (e1 - e0) <= Z.pos m2 * 2 ^ (e2 - e0) ->
  Z.pos (digits2_pos m1) + e1 <= Z.pos (digits2_pos m2) + e2.
Proof.
  intros H1 H2 H.
  pose proof (digits2_bounds m1) as [L1 _]. pose proof (digits2_bounds m2) as [_ U2].
  set (d1 := Z.pos (digits2_pos m1)) in *. set (d2 := Z.pos (digits2_pos m2)) in *.
  assert (0 < d1) by (unfold d1; lia). assert (0 < d2) by (unfold d2; lia).
  destruct (Z.le_gt_cases (d1 + e1) (d2 + e2)) as [|G]; [assumption|exfalso].
  pose proof (pow2_pos (e1 - e0) ltac:(lia)) as P1.
  pose proof (pow2_pos (e2 - e0) ltac:(lia)) as P2.
  assert (A : 2 ^ (d1 - 1) * 2 ^ (e1 - e0) <= Z.pos m1 * 2 ^ (e1 - e0)) by nia.
  assert (B : Z.pos m2 * 2 ^ (e2 - e0) < 2 ^ d2 * 2 ^ (e2 - e0)) by nia.
  rewrite <- pow2_split in A, B by lia.
  assert (2 ^ (d2 + (e2 - e0)) <= 2 ^ (d1 - 1 + (e1 - e0))) by (apply pow2_le; lia).
  lia.
Qed.

(** Rounded values, before the overflow test, are monotone. *)
Lemma rne_value_mono (m1 m2 : positive) (e1 e2 e0 : Z) :
  let E1 := fexp prec emax (Z.pos (digits2_pos m1) + e1) in
  let E2 := fexp prec emax (Z.pos (digits2_pos m2) + e2) in
  e1 <= E1 -> e2 <= E2 -> e0 <= e1 -> e0 <= e2 ->
  Z.pos m1 * 2 ^ (e1 - e0) <= Z.pos m2 * 2 ^ (e2 - e0) ->
  rne (Z.pos m1) (E1 - e1) * 2 ^ (E1 + 1074)
  <= rne (Z.pos m2) (E2 - e2) * 2 ^ (E2 + 1074).
Proof.
  intros E1 E2 K1 K2 H1 H2 H.
  pose proof (magnitude_mono m1 m2 e1 e2 e0 H1 H2 H) as Hmag.
  pose proof (digits2_bounds m1) as [L1 U1]. pose proof (digits2_bounds m2) as [L2 U2].
  unfold E1, E2 in *. rewrite !fexp_unfold in *. clear E1 E2.
  set (d1 := Z.pos (digits2_pos m1)) in *. set (d2 := Z.pos (digits2_pos m2)) in *.
  set (E1 := Z.max (d1 + e1 - 53) (-1074)) in *.
  set (E2 := Z.max (d2 + e2 - 53) (-1074)) in *.
  assert (0 < d1) by (unfold d1; lia). assert (0 < d2) by (unfold d2; lia).
  assert (HE : E1 <= E2) by lia.
  destruct (Z.eq_dec E1 E2) as [Eq|Ne].
  - rewrite <- Eq. apply Z.mul_le_mono_nonneg_r; [apply Z.lt_le_incl, pow2_pos; lia|].
    rewrite <- (rne_scale (Z.pos m1) (E1 - e1) (e1 - e0)) by lia.
    rewrite <- (rne_scale (Z.pos m2) (E1 - e2) (e2 - e0)) by lia.
    replace (E1 - e1 + (e1 - e0)) with (E1 - e0) by lia.
    replace (E1 - e2 + (e2 - e0)) with (E1 - e0) by lia.
    apply rne_mono; [lia | assumption].
  - assert (E2def : E2 = d2 + e2 - 53) by lia.
    set (t := Z.max (d1 + e1 - E1) 0).
    assert (Q1 : rne (Z.pos m1) (E1 - e1) <= 2 ^ t).
    { apply rne_le; [lia|]. rewrite <- pow2_split by lia.
      assert (2 ^ d1 <= 2 ^ (t + (E1 - e1))) by (apply pow2_le; lia). lia. }
    assert (Q2 : 2 ^ 52 <= rne (Z.pos m2) (E2 - e2)).
    { apply rne_ge; [lia|]. rewrite <- pow2_split by lia.
      replace (52 + (E2 - e2)) with (d2 - 1) by lia. assumption. }
    pose proof (pow2_pos (E1 + 1074) ltac:(lia)) as P1.
    pose proof (pow2_pos (E2 + 1074) ltac:(lia)) as P2.
    assert (A : rne (Z.pos m1) (E1 - e1) * 2 ^ (E1 + 1074) <= 2 ^ t * 2 ^ (E1 + 1074)) by nia.
    assert (B : 2 ^ 52 * 2 ^ (E2 + 1074) <= rne (Z.pos m2) (E2 - e2) * 2 ^ (E2 + 1074)) by nia.
    rewrite <- pow2_split in A, B by lia.
    assert (2 ^ (t + (E1 + 1074)) <= 2 ^ (52 + (E2 + 1074))) by (apply pow2_le; lia).
    lia.
Qed.

Lemma ord_binary_round_aux (m : positive) (e : Z) :
  let E := fexp prec emax (Z.pos (digits2_pos m) + e) in
  e <= E ->
  ord (binary_round_aux prec emax false (Z.pos m) e loc_Exact)
  = Z.min (rne (Z.pos m) (E - e) * 2 ^ (E + 1074)) INF.
Proof.
  intros E HE. rewrite binary_round_aux_rounded by assumption. fold E.
  apply ord_rounded.
  - unfold E. rewrite fexp_unfold. lia.
  - now apply rne_digits_bound.
  - intros Hn. apply rne_ge; [lia|].
    pose proof (digits2_bounds m) as [L _].
    rewrite <- pow2_split by lia.
    replace (52 + (E - e)) with (Z.pos (digits2_pos m) - 1); [assumption|].
    unfold E in *. rewrite fexp_unfold in *. lia.
Qed.

Lemma iter_xO_pow (m d : positive) :
  Z.pos (Pos.iter xO m d) = Z.pos m * 2 ^ Z.pos d.
Proof.
  pose proof (shift_pos_correct d m) as H. unfold shift_pos in H.
  rewrite H, Z.pow_pos_fold. lia.
Qed.

Lemma digits2_shift (m : positive) (j : Z) (m' : positive) :
  0 <= j -> Z.pos m' = Z.pos m * 2 ^ j ->
  Z.pos (digits2_pos m') = Z.pos (digits2_pos m) + j.
Proof.
  intros Hj E. rewrite !digits2_log2, E, Z.log2_mul_pow2 by lia. lia.
Qed.

(** [binary_round] is [binary_round_aux] on an input of the same value that
    needs no shift to the left. *)
Lemma binary_round_as_aux (s : bool) (m : positive) (e : Z) :
  exists (m' : positive) (e' : Z),
    binary_round prec emax s m e
    = binary_round_aux prec emax s (Z.pos m') e' loc_Exact
    /\ e' <= e
    /\ Z.pos m' = Z.pos m * 2 ^ (e - e')
    /\ e' <= fexp prec emax (Z.pos (digits2_pos m') + e').
Proof.
  unfold binary_round, shl_align.
  set (E := fexp prec emax (Z.pos (digits2_pos m) + e)).
  destruct (E - e) as [|d|d] eqn:D.
  - exists m, e. replace (e - e) with 0 by lia. fold E. repeat split; lia.
  - exists m, e. replace (e - e) with 0 by lia. fold E. repeat split; lia.
  - exists (Pos.iter xO m d), E.
    assert (Hd : e - E = Z.pos d) by lia.
    pose proof (iter_xO_pow m d) as Hm. rewrite <- Hd in Hm.
    repeat split; [lia | assumption |].
    rewrite (digits2_shift m (e - E) _ ltac:(lia) Hm).
    replace (Z.pos (digits2_pos m) + (e - E) + E) with (Z.pos (digits2_pos m) + e) by lia.
    fold E. lia.
Qed.

Lemma ord_opp (x : spec_float) : ord (SFopp x) = - ord x.
Proof. destruct x as [s|s| |s m e]; try destruct s; cbn [SFopp ord negb]; lia. Qed.

Lemma binary_round_aux_sign (s : bool) (m e : Z) (l : location) :
  binary_round_aux prec emax s m e l
  = (if s then SFopp (binary_round_aux prec emax false m e l)
     else binary_round_aux prec emax false m e l).
Proof.
  destruct s; [|reflexivity]. unfold binary_round_aux.
  destruct (shr_fexp prec emax m e l) as [mrs' e'].
  destruct (shr_fexp prec emax _ e' loc_Exact) as [mrs'' e''].
  destruct (shr_m mrs''); try reflexivity.
  destruct (e'' <=? emax - prec); reflexivity.
Qed.

Lemma binary_round_sign (s : bool) (m : positive) (e : Z) :
  binary_round prec emax s m e
  = (if s then SFopp (binary_round prec emax false m e)
     else binary_round prec emax false m e).
Proof.
  unfold binary_round. destruct (shl_align m e _) as [mz ez].
  apply binary_round_aux_sign.
Qed.

(** Rounding is monotone in the exact value, and stays within the
    infinities. *)
Lemma ord_binary_round_mono (m1 m2 : positive) (e1 e2 e0 : Z) :
  e0 <= e1 -> e0 <= e2 ->
  Z.pos m1 * 2 ^ (e1 - e0) <= Z.pos m2 * 2 ^ (e2 - e0) ->
  ord (binary_round prec emax false m1 e1) <= ord (binary_round prec emax false m2 e2).
Proof.
  intros H1 H2 H.
  destruct (binary_round_as_aux false m1 e1) as (n1 & f1 & -> & L1 & V1 & K1).
  destruct (binary_round_as_aux false m2 e2) as (n2 & f2 & -> & L2 & V2 & K2).
  rewrite !ord_binary_round_aux by assumption.
  apply Z.min_le_compat_r.
  set (f0 := Z.min e0 (Z.min f1 f2)).
  apply (rne_value_mono n1 n2 f1 f2 f0); try assumption; try (unfold f0; lia).
  rewrite V1, V2, <- !Z.mul_assoc, <- !pow2_split by (unfold f0; lia).
  replace (e1 - f1 + (f1 - f0)) with ((e1 - e0) + (e0 - f0)) by lia.
  replace (e2 - f2 + (f2 - f0)) with ((e2 - e0) + (e0 - f0)) by lia.
  rewrite !pow2_split, !Z.mul_assoc by (unfold f0; lia).
  apply Z.mul_le_mono_nonneg_r; [|assumption].
  apply Z.lt_le_incl, pow2_pos. unfold f0. lia.
Qed.

Lemma ord_binary_round_bounds (m : positive) (e : Z) :
  0 <= ord (binary_round prec emax false m e) <= INF.
Proof.
  destruct (binary_round_as_aux false m e) as (n & f & -> & L & V & K).
  rewrite ord_binary_round_aux by assumption.
  set (E := fexp prec emax (Z.pos (digits2_pos n) + f)) in *.
  pose proof (rne_digits_bound n f K) as [Q _]. fold E in Q.
  assert (-1074 <= E) by (unfold E; rewrite fexp_unfold; lia).
  pose proof (pow2_pos (E + 1074) ltac:(lia)).
  assert (0 < INF) by (apply pow2_pos; lia).
  split; [|apply Z.le_min_r]. apply Z.min_glb; [nia | lia].
Qed.

Lemma valid_finite (s : bool) (m : positive) (e : Z) :
  valid_binary (S754_finite s m e) = true ->
  -1074 <= e <= 971
  /\ Z.pos (digits2_pos m) <= 53
  /\ (-1074 < e -> Z.pos (digits2_pos m) = 53)
  /\ fexp prec emax (Z.pos (digits2_pos m) + e) = e.
Proof.
  cbn [SpecFloat.valid_binary]. unfold bounded, canonical_mantissa.
  rewrite andb_true_iff, Z.eqb_eq, Z.leb_le. intros [C B].
  pose proof C as C'. rewrite fexp_unfold in C'.
  change (emax - prec) with 971 in B. repeat split; try lia; assumption.
Qed.

Lemma mag_bounds (s : bool) (m : positive) (e : Z) :
  valid_binary (S754_finite s m e) = true -> 0 < mag m e < INF.
Proof.
  intros V. apply valid_finite in V as (B & D & _ & _).
  pose proof (digits2_bounds m) as [_ U]. unfold mag, INF.
  pose proof (pow2_pos (e + 1074) ltac:(lia)) as P.
  assert (2 ^ Z.pos (digits2_pos m) <= 2 ^ 53) by (apply pow2_le; lia).
  assert (2 ^ 53 * 2 ^ (e + 1074) <= 2 ^ 2098).
  { rewrite <- pow2_split by lia. apply pow2_le. lia. }
  split; nia.
Qed.

Lemma mag_exponent_lt (s1 s2 : bool) (m1 m2 : positive) (e1 e2 : Z) :
  valid_binary (S754_finite s1 m1 e1) = true ->
  valid_binary (S754_finite s2 m2 e2) = true ->
  e1 < e2 -> mag m1 e1 < mag m2 e2.
Proof.
  intros V1 V2 H.
  apply valid_finite in V1 as (B1 & D1 & _ & _).
  apply valid_finite in V2 as (B2 & _ & N2 & _).
  pose proof (digits2_bounds m1) as [_ U1]. pose proof (digits2_bounds m2) as [L2 _].
  rewrite N2 in L2 by lia. change (53 - 1) with 52 in L2. unfold mag.
  pose proof (pow2_pos (e1 + 1074) ltac:(lia)) as P1.
  pose proof (pow2_pos (e2 + 1074) ltac:(lia)) as P2.
  assert (2 ^ Z.pos (digits2_pos m1) <= 2 ^ 53) by (apply pow2_le; lia).
  assert (A : Z.pos m1 * 2 ^ (e1 + 1074) < 2 ^ 53 * 2 ^ (e1 + 1074)) by nia.
  assert (B : 2 ^ 52 * 2 ^ (e2 + 1074) <= Z.pos m2 * 2 ^ (e2 + 1074)) by nia.
  rewrite <- pow2_split in A, B by lia.
  assert (2 ^ (53 + (e1 + 1074)) <= 2 ^ (52 + (e2 + 1074))) by (apply pow2_le; lia).
  lia.
Qed.

Lemma mag_compare (s1 s2 : bool) (m1 m2 : positive) (e1 e2 : Z) :
  valid_binary (S754_finite s1 m1 e1) = true ->
  valid_binary (S754_finite s2 m2 e2) = true ->
  match e1 ?= e2 with
  | Lt => Lt
  | Gt => Gt
  | Eq => Pos.compare_cont Eq m1 m2
  end = (mag m1 e1 ?= mag m2 e2).
Proof.
  intros V1 V2. destruct (Z.compare_spec e1 e2) as [E|L|G]; symmetry.
  - subst e2. unfold mag.
    pose proof (valid_finite _ _ _ V1) as (B & _).
    rewrite <- Zmult_compare_compat_r by (apply Z.lt_gt, pow2_pos; lia).
    reflexivity.
  - apply Z.compare_lt_iff. eapply mag_exponent_lt; eassumption.
  - apply Z.compare_gt_iff. eapply mag_exponent_lt; eassumption.
Qed.

(** On valid floats other than NaN, [SFcompare] is the order of [ord]. *)
Lemma SFcompare_ord (x y : spec_float) :
  valid_binary x = true -> valid_binary y = true ->
  is_nan_sf x = false -> is_nan_sf y = false ->
  SFcompare x y = Some (ord x ?= ord y).
Proof.
  intros Vx Vy Nx Ny.
  assert (PI : 0 < INF) by (apply pow2_pos; lia). unfold INF in PI.
  destruct x as [sx|sx| |sx mx ex]; try discriminate;
    destruct y as [sy|sy| |sy my ey]; try discriminate;
    cbn [SFcompare ord]; f_equal; symmetry.
  all: try (pose proof (mag_bounds _ _ _ Vx) as Bx; unfold mag, INF in Bx).
  all: try (pose proof (mag_bounds _ _ _ Vy) as By; unfold mag, INF in By).
  all: try (destruct sx; destruct sy;
            first [apply Z.compare_eq_iff | apply Z.compare_lt_iff
                  | apply Z.compare_gt_iff]; lia).
  all: try (destruct sx;
            first [apply Z.compare_eq_iff | apply Z.compare_lt_iff
                  | apply Z.compare_gt_iff]; lia).
  all: try (destruct sy;
            first [apply Z.compare_eq_iff | apply Z.compare_lt_iff
                  | apply Z.compare_gt_iff]; lia).
  pose proof (mag_compare sx sy mx my ex ey Vx Vy) as C.
  pose proof (mag_compare sy sx my mx ey ex Vy Vx) as C'.
  unfold mag in *.
  destruct sx, sy.
  - replace (-1 * (Z.pos mx * 2 ^ (ex + 1074)) ?= -1 * (Z.pos my * 2 ^ (ey + 1074)))
      with (Z.pos my * 2 ^ (ey + 1074) ?= Z.pos mx * 2 ^ (ex + 1074)).
    + rewrite <- C'. rewrite (Z.compare_antisym ey ex).
      destruct (ey ?= ex); cbn [CompOpp]; try reflexivity.
      rewrite Pos.compare_cont_antisym. reflexivity.
    + rewrite <- Z.compare_opp. f_equal; lia.
  - apply Z.compare_lt_iff. lia.
  - apply Z.compare_gt_iff. lia.
  - replace (1 * (Z.pos mx * 2 ^ (ex + 1074))) with (Z.pos mx * 2 ^ (ex + 1074)) by lia.
    replace (1 * (Z.pos my * 2 ^ (ey + 1074))) with (Z.pos my * 2 ^ (ey + 1074)) by lia.
    rewrite <- C. reflexivity.
Qed.

Lemma SFleb_ord (x y : spec_float) :
  valid_binary x = true -> valid_binary y = true ->
  is_nan_sf x = false -> is_nan_sf y = false ->
  SFleb x y = (ord x <=? ord y).
Proof.
  intros Vx Vy Nx Ny. unfold SFleb. rewrite SFcompare_ord by assumption.
  unfold Z.leb. destruct (ord x ?= ord y); reflexivity.
Qed.

Lemma SFltb_ord (x y : spec_float) :
  valid_binary x = true -> valid_binary y = true ->
  is_nan_sf x = false -> is_nan_sf y = false ->
  SFltb x y = (ord x <? ord y).
Proof.
  intros Vx Vy Nx Ny. unfold SFltb. rewrite SFcompare_ord by assumption.
  unfold Z.ltb. destruct (ord x ?= ord y); reflexivity.
Qed.

Lemma SFcompare_nan (x y : spec_float) :
  SFcompare x y <> None -> is_nan_sf x = false /\ is_nan_sf y = false.
Proof.
  destruct x, y; cbn [SFcompare is_nan_sf]; intros H; split; congruence.
Qed.

(** ** Multiplication by a positive float *)

Lemma digits2_mul (m1 m2 : positive) :
  Z.pos (digits2_pos m1) + Z.pos (digits2_pos m2) - 1
  <= Z.pos (digits2_pos (m1 * m2)).
Proof.
  pose proof (digits2_bounds m1) as [L1 _]. pose proof (digits2_bounds m2) as [L2 _].
  apply digits2_ge. rewrite Pos2Z.inj_mul.
  replace (Z.pos (digits2_pos m1) + Z.pos (digits2_pos m2) - 1 - 1)
    with ((Z.pos (digits2_pos m1) - 1) + (Z.pos (digits2_pos m2) - 1)) by lia.
  rewrite pow2_split by lia.
  apply Z.mul_le_mono_nonneg; try assumption; apply Z.lt_le_incl, pow2_pos; lia.
Qed.

Lemma SFmul_finite (sx sy : bool) (mx my : positive) (ex ey : Z) :
  valid_binary (S754_finite sx mx ex) = true ->
  valid_binary (S754_finite sy my ey) = true ->
  SFmul prec emax (S754_finite sx mx ex) (S754_finite sy my ey)
  = binary_round prec emax (xorb sx sy) (mx * my) (ex + ey).
Proof.
  intros Vx Vy. cbn [SFmul]. unfold binary_round, shl_align.
  apply valid_finite in Vx as (Bx & Dx & Nx & _).
  apply valid_finite in Vy as (By & Dy & Ny & _).
  pose proof (digits2_mul mx my) as D.
  assert (P1 : 0 < Z.pos (digits2_pos mx)) by lia.
  assert (P2 : 0 < Z.pos (digits2_pos my)) by lia.
  rewrite fexp_unfold.
  destruct (Z.max (Z.pos (digits2_pos (mx * my)) + (ex + ey) - 53) (-1074) - (ex + ey))
    eqn:E; try reflexivity.
  lia.
Qed.

Section MulPositive.
Variables (mc : positive) (ec : Z).
Hypothesis Vc : valid_binary (S754_finite false mc ec) = true.

Lemma mul_ord_mono (m1 m2 : positive) (e1 e2 : Z) :
  -1074 <= e1 -> -1074 <= e2 ->
  Z.pos m1 * 2 ^ (e1 + 1074) <= Z.pos m2 * 2 ^ (e2 + 1074) ->
  mul_ord mc ec m1 e1 <= mul_ord mc ec m2 e2.
Proof using Type.
  intros H1 H2 H. unfold mul_ord.
  apply (ord_binary_round_mono _ _ _ _ (ec - 1074)); try lia.
  replace (ec + e1 - (ec - 1074)) with (e1 + 1074) by lia.
  replace (ec + e2 - (ec - 1074)) with (e2 + 1074) by lia.
  rewrite !Pos2Z.inj_mul, <- !Z.mul_assoc.
  apply Z.mul_le_mono_nonneg_l; lia.
Qed.

Lemma ord_SFmul_finite (s : bool) (m : positive) (e : Z) :
  valid_binary (S754_finite s m e) = true ->
  ord (SFmul prec emax (S754_finite false mc ec) (S754_finite s m e))
  = (if s then -1 else 1) * mul_ord mc ec m e.
Proof using Vc.
  intros V. rewrite SFmul_finite by assumption.
  rewrite xorb_false_l, binary_round_sign. unfold mul_ord.
  destruct s; [rewrite ord_opp|]; lia.
Qed.
End MulPositive.

Lemma SFmul_mono (c x y : spec_float) :
  valid_binary c = true -> valid_binary x = true -> valid_binary y = true ->
  is_nan_sf x = false -> is_nan_sf y = false ->
  0 < ord c -> ord x <= ord y ->
  is_nan_sf (SFmul prec emax c x) = false ->
  is_nan_sf (SFmul prec emax c y) = false ->
  ord (SFmul prec emax c x) <= ord (SFmul prec emax c y).
Proof.
  intros Vc Vx Vy Nx Ny Hc Hxy Rx Ry.
  assert (PI : 0 < INF) by (apply pow2_pos; lia). unfold INF in PI.
  destruct c as [sc|sc| |sc mc ec]; cbn [ord] in Hc; try lia.
  - (* c = +infinity *)
    destruct sc; [lia|].
    destruct x as [sx|sx| |sx mx ex]; try discriminate;
      destruct y as [sy|sy| |sy my ey]; try discriminate;
      cbn [SFmul xorb ord] in *.
    all: try (pose proof (mag_bounds _ _ _ Vx) as Bx; unfold mag, INF in Bx).
    all: try (pose proof (mag_bounds _ _ _ Vy) as By; unfold mag, INF in By).
    all: destruct sx, sy; cbn [ord xorb]; lia.
  - (* c finite *)
    pose proof (mag_bounds _ _ _ Vc) as Bc. unfold mag in Bc.
    destruct sc; [lia|].
    destruct x as [sx|sx| |sx mx ex]; try discriminate;
      destruct y as [sy|sy| |sy my ey]; try discriminate.
    all: try rewrite (ord_SFmul_finite mc ec Vc sx mx ex Vx).
    all: try rewrite (ord_SFmul_finite mc ec Vc sy my ey Vy).
    all: try (pose proof (ord_binary_round_bounds (mc * mx) (ec + ex)) as Rbx;
              fold (mul_ord mc ec mx ex) in Rbx; unfold INF in Rbx).
    all: try (pose proof (ord_binary_round_bounds (mc * my) (ec + ey)) as Rby;
              fold (mul_ord mc ec my ey) in Rby; unfold INF in Rby).
    all: try (pose proof (mag_bounds _ _ _ Vx) as Bx; unfold mag, INF in Bx).
    all: try (pose proof (mag_bounds _ _ _ Vy) as By; unfold mag, INF in By).
    all: try (pose proof (valid_finite _ _ _ Vx) as (Ex & _)).
    all: try (pose proof (valid_finite _ _ _ Vy) as (Ey & _)).
    all: try (pose proof (mul_ord_mono mc ec mx my ex ey ltac:(lia) ltac:(lia)) as M1;
              pose proof (mul_ord_mono mc ec my mx ey ex ltac:(lia) ltac:(lia)) as M2).
    all: cbn [SFmul xorb ord] in *.
    all: try destruct sx; try destruct sy; cbn [ord xorb] in *; lia.
Qed.

(** ** Subtraction *)

Lemma ord_binary_normalize_neg (p : positive) (e : Z) :
  ord (binary_normalize prec emax (Z.neg p) e false)
  = - ord (binary_normalize prec emax (Z.pos p) e false).
Proof.
  cbn [binary_normalize]. rewrite (binary_round_sign true). now rewrite ord_opp.
Qed.

Lemma round_int_bounds (z : Z) : - INF <= round_int z <= INF.
Proof.
  assert (PI : 0 < INF) by (apply pow2_pos; lia).
  unfold round_int. destruct z as [|p|p].
  - cbn [binary_normalize ord]. lia.
  - cbn [binary_normalize]. pose proof (ord_binary_round_bounds p (-1074)). lia.
  - rewrite ord_binary_normalize_neg. cbn [binary_normalize].
    pose proof (ord_binary_round_bounds p (-1074)). lia.
Qed.

Lemma round_int_sign (z : Z) :
  (0 <= z -> 0 <= round_int z) /\ (z <= 0 -> round_int z <= 0).
Proof.
  unfold round_int. destruct z as [|p|p].
  - cbn [binary_normalize ord]. lia.
  - cbn [binary_normalize]. pose proof (ord_binary_round_bounds p (-1074)). lia.
  - rewrite ord_binary_normalize_neg. cbn [binary_normalize].
    pose proof (ord_binary_round_bounds p (-1074)). lia.
Qed.

Lemma round_int_mono (z1 z2 : Z) : z1 <= z2 -> round_int z1 <= round_int z2.
Proof.
  intros H.
  pose proof (round_int_sign z1) as [P1 N1]. pose proof (round_int_sign z2) as [P2 N2].
  destruct z1 as [|p1|p1], z2 as [|p2|p2]; try lia.
  - unfold round_int. cbn [binary_normalize].
    apply (ord_binary_round_mono _ _ _ _ (-1074)); lia.
  - unfold round_int. rewrite !ord_binary_normalize_neg. cbn [binary_normalize].
    apply Z.opp_le_mono. rewrite !Z.opp_involutive.
    apply (ord_binary_round_mono _ _ _ _ (-1074)); lia.
Qed.

(** Rounding depends on the value only, not on the exponent it is given at. *)
Lemma ord_binary_normalize_scale (z e : Z) :
  -1074 <= e ->
  ord (binary_normalize prec emax z e false) = round_int (z * 2 ^ (e + 1074)).
Proof.
  intros He. pose proof (pow2_pos (e + 1074) ltac:(lia)) as P.
  assert (Pos : forall p : positive,
    ord (binary_normalize prec emax (Z.pos p) e false)
    = round_int (Z.pos p * 2 ^ (e + 1074))).
  { intros p. unfold round_int.
    destruct (Z.pos p * 2 ^ (e + 1074)) as [|p'|p'] eqn:E; try lia.
    cbn [binary_normalize]. apply Z.le_antisymm.
    - apply (ord_binary_round_mono _ _ _ _ (-1074)); try lia.
      replace (e - -1074) with (e + 1074) by lia.
      replace (-1074 - -1074) with 0 by lia. lia.
    - apply (ord_binary_round_mono _ _ _ _ (-1074)); try lia.
      replace (e - -1074) with (e + 1074) by lia.
      replace (-1074 - -1074) with 0 by lia. lia. }
  destruct z as [|p|p].
  - reflexivity.
  - apply Pos.
  - rewrite ord_binary_normalize_neg, Pos.
    replace (Z.neg p * 2 ^ (e + 1074)) with (- (Z.pos p * 2 ^ (e + 1074))) by lia.
    unfold round_int.
    destruct (Z.pos p * 2 ^ (e + 1074)) as [|p'|p'] eqn:E; try lia.
    change (- Z.pos p') with (Z.neg p'). now rewrite ord_binary_normalize_neg.
Qed.

Lemma binary_round_valid_finite (s : bool) (m : positive) (e : Z) :
  valid_binary (S754_finite s m e) = true ->
  binary_round prec emax s m e = S754_finite s m e.
Proof.
  intros V. pose proof (valid_finite _ _ _ V) as (B & D & _ & C).
  unfold binary_round, shl_align. rewrite C. replace (e - e) with 0 by lia.
  rewrite binary_round_aux_rounded by lia. rewrite C.
  replace (e - e) with 0 by lia. rewrite rne_0. unfold rounded.
  pose proof (digits2_bounds m) as [_ U].
  assert (2 ^ Z.pos (digits2_pos m) <= 2 ^ 53) by (apply pow2_le; lia).
  destruct (Z.eqb_spec (Z.pos m) 0); [lia|].
  destruct (Z.ltb_spec (Z.pos m) (2 ^ 53)); [|lia].
  destruct (Z.leb_spec e 971); [|lia].
  reflexivity.
Qed.

(** Representable values round to themselves. *)
Lemma round_int_ord (x : spec_float) :
  valid_binary x = true -> is_nan_sf x = false ->
  match x with S754_infinity _ => True | _ => round_int (ord x) = ord x end.
Proof.
  intros V N. destruct x as [s|s| |s m e]; try exact I; try discriminate.
  - reflexivity.
  - pose proof (valid_finite _ _ _ V) as (B & _).
    cbn [ord].
    replace ((if s then -1 else 1) * (Z.pos m * 2 ^ (e + 1074)))
      with ((if s then Z.neg m else Z.pos m) * 2 ^ (e + 1074))
      by (destruct s; lia).
    rewrite <- ord_binary_normalize_scale by lia.
    destruct s; cbn [binary_normalize]; rewrite binary_round_valid_finite by assumption;
      cbn [ord]; lia.
Qed.

Lemma shl_align_fst (m : positive) (e e' : Z) :
  e' <= e -> Z.pos (fst (shl_align m e e')) = Z.pos m * 2 ^ (e - e').
Proof.
  intros H. unfold shl_align. destruct (e' - e) as [|d|d] eqn:D; cbn [fst].
  - replace (e - e') with 0 by lia. lia.
  - lia.
  - rewrite iter_xO_pow. f_equal. f_equal. lia.
Qed.

Lemma binary_normalize_not_nan (z e : Z) (s : bool) :
  is_nan_sf (binary_normalize prec emax z e s) = false.
Proof.
  assert (R : forall b m f, is_nan_sf (binary_round prec emax b m f) = false).
  { intros b m f.
    destruct (binary_round_as_aux b m f) as (n & g & -> & _ & _ & K).
    rewrite binary_round_aux_rounded by assumption. unfold rounded.
    repeat match goal with |- context [if ?c then _ else _] => destruct c end;
      reflexivity. }
  destruct z; cbn [binary_normalize]; [reflexivity | apply R | apply R].
Qed.

(** The difference of two finite floats is the rounding of the exact
    difference. *)
Lemma ord_SFsub_finite (x y : spec_float) :
  valid_binary x = true -> valid_binary y = true ->
  is_finite_sf x = true -> is_finite_sf y = true ->
  is_nan_sf (SFsub prec emax x y) = false
  /\ ord (SFsub prec emax x y) = round_int (ord x - ord y).
Proof.
  intros Vx Vy Fx Fy.
  destruct x as [sx|sx| |sx mx ex]; try discriminate;
    destruct y as [sy|sy| |sy my ey]; try discriminate.
  - split; [destruct sx, sy; reflexivity|].
    destruct sx, sy; reflexivity.
  - cbn [SFsub]. split; [reflexivity|].
    pose proof (round_int_ord (S754_finite (negb sy) my ey) Vy eq_refl) as R.
    cbn [ord] in *. rewrite <- R at 1. f_equal. destruct sy; cbn [negb]; lia.
  - cbn [SFsub]. split; [reflexivity|].
    pose proof (round_int_ord (S754_finite sx mx ex) Vx eq_refl) as R.
    cbn [ord] in *. rewrite <- R at 1. f_equal. lia.
  - cbn [SFsub]. split; [apply binary_normalize_not_nan|].
    pose proof (valid_finite _ _ _ Vx) as (Bx & _).
    pose proof (valid_finite _ _ _ Vy) as (By & _).
    rewrite ord_binary_normalize_scale by lia. f_equal.
    set (ez := Z.min ex ey).
    pose proof (shl_align_fst mx ex ez ltac:(unfold ez; lia)) as Ax.
    pose proof (shl_align_fst my ey ez ltac:(unfold ez; lia)) as Ay.
    rewrite Z.mul_sub_distr_r. cbn [ord].
    assert (Sx : Z.pos mx * 2 ^ (ex - ez) * 2 ^ (ez + 1074) = Z.pos mx * 2 ^ (ex + 1074)).
    { rewrite <- Z.mul_assoc, <- pow2_split by (unfold ez; lia).
      f_equal. f_equal. lia. }
    assert (Sy : Z.pos my * 2 ^ (ey - ez) * 2 ^ (ez + 1074) = Z.pos my * 2 ^ (ey + 1074)).
    { rewrite <- Z.mul_assoc, <- pow2_split by (unfold ez; lia).
      f_equal. f_equal. lia. }
    unfold cond_Zopp. rewrite <- Sx, <- Sy, <- Ax, <- Ay.
    destruct sx, sy; lia.
Qed.

Lemma SFsub_mono (d x y : spec_float) :
  valid_binary d = true -> valid_binary x = true -> valid_binary y = true ->
  is_nan_sf x = false -> is_nan_sf y = false ->
  ord x <= ord y ->
  is_nan_sf (SFsub prec emax d x) = false ->
  is_nan_sf (SFsub prec emax d y) = false ->
  ord (SFsub prec emax d y) <= ord (SFsub prec emax d x).
Proof.
  intros Vd Vx Vy Nx Ny Hxy Rx Ry.
  assert (PI : 0 < INF) by (apply pow2_pos; lia).
  destruct (is_finite_sf d) eqn:Fd.
  - destruct (is_finite_sf x) eqn:Fx; destruct (is_finite_sf y) eqn:Fy.
    + destruct (ord_SFsub_finite d x Vd Vx Fd Fx) as [_ ->].
      destruct (ord_SFsub_finite d y Vd Vy Fd Fy) as [_ ->].
      apply round_int_mono. lia.
    + destruct (ord_SFsub_finite d x Vd Vx Fd Fx) as [_ ->].
      pose proof (round_int_bounds (ord d - ord x)) as B.
      destruct y as [sy|sy| |sy my ey]; try discriminate.
      assert (Bx : - INF < ord x < INF).
      { destruct x as [sx|sx| |sx mx ex]; try discriminate; cbn [ord]; [lia|].
        pose proof (mag_bounds _ _ _ Vx) as M. unfold mag in M. destruct sx; lia. }
      destruct d as [sd|sd| |sd md ed]; try discriminate;
        cbn [SFsub ord] in *; unfold INF in *; destruct sy; cbn [negb]; lia.
    + destruct (ord_SFsub_finite d y Vd Vy Fd Fy) as [_ ->].
      pose proof (round_int_bounds (ord d - ord y)) as B.
      destruct x as [sx|sx| |sx mx ex]; try discriminate.
      assert (By : - INF < ord y < INF).
      { destruct y as [sy|sy| |sy my ey]; try discriminate; cbn [ord]; [lia|].
        pose proof (mag_bounds _ _ _ Vy) as M. unfold mag in M. destruct sy; lia. }
      destruct d as [sd|sd| |sd md ed]; try discriminate;
        cbn [SFsub ord] in *; unfold INF in *; destruct sx; cbn [negb]; lia.
    + destruct x as [sx|sx| |sx mx ex]; try discriminate;
        destruct y as [sy|sy| |sy my ey]; try discriminate.
      destruct d as [sd|sd| |sd md ed]; try discriminate;
        cbn [SFsub ord] in *; unfold INF in *; destruct sx, sy; cbn [negb]; lia.
  - destruct d as [sd|sd| |sd md ed]; try discriminate.
    destruct x as [sx|sx| |sx mx ex]; try discriminate;
        destruct y as [sy|sy| |sy my ey]; try discriminate;
        cbn [SFsub] in *; destruct sd; try destruct sx; try destruct sy;
        try discriminate; cbn [ord]; lia.
Qed.

(** ** Primitive floats *)

Lemma is_nan_Prim2SF (x : float) : is_nan x = is_nan_sf (Prim2SF x).
Proof.
  unfold is_nan. rewrite FloatAxioms.eqb_spec. unfold SFeqb.
  pose proof (Prim2SF_valid x) as V.
  destruct (is_nan_sf (Prim2SF x)) eqn:N.
  - destruct (Prim2SF x); try discriminate. reflexivity.
  - rewrite SFcompare_ord, Z.compare_refl by assumption. reflexivity.
Qed.

Lemma leb_ord (x y : float) :
  (x <=? y)%float = true <->
  is_nan x = false /\ is_nan y = false /\ ord (Prim2SF x) <= ord (Prim2SF y).
Proof.
  rewrite FloatAxioms.leb_spec, !is_nan_Prim2SF.
  pose proof (Prim2SF_valid x) as Vx. pose proof (Prim2SF_valid y) as Vy.
  split.
  - intros H.
    destruct (SFcompare_nan (Prim2SF x) (Prim2SF y)) as [Nx Ny].
    { unfold SFleb in H. destruct (SFcompare (Prim2SF x) (Prim2SF y)); congruence. }
    rewrite SFleb_ord in H by assumption. apply Z.leb_le in H. auto.
  - intros (Nx & Ny & H). rewrite SFleb_ord by assumption. now apply Z.leb_le.
Qed.

Lemma ltb_ord (x y : float) :
  (x <? y)%float = true <->
  is_nan x = false /\ is_nan y = false /\ ord (Prim2SF x) < ord (Prim2SF y).
Proof.
  rewrite FloatAxioms.ltb_spec, !is_nan_Prim2SF.
  pose proof (Prim2SF_valid x) as Vx. pose proof (Prim2SF_valid y) as Vy.
  split.
  - intros H.
    destruct (SFcompare_nan (Prim2SF x) (Prim2SF y)) as [Nx Ny].
    { unfold SFltb in H. destruct (SFcompare (Prim2SF x) (Prim2SF y)); congruence. }
    rewrite SFltb_ord in H by assumption. apply Z.ltb_lt in H. auto.
  - intros (Nx & Ny & H). rewrite SFltb_ord by assumption. now apply Z.ltb_lt.
Qed.

(** Multiplication by a positive float is monotone wherever it is defined. *)
Lemma float_mul_mono (c x y : float) :
  (0 <? c)%float = true -> (x <=? y)%float = true ->
  is_nan (c * x) = false -> is_nan (c * y) = false ->
  (c * x <=? c * y)%float = true.
Proof.
  intros Hc Hxy Nx Ny.
  apply ltb_ord in Hc as (_ & Nc & Hc). apply leb_ord in Hxy as (Mx & My & Hxy).
  apply leb_ord. repeat split; try assumption.
  rewrite !is_nan_Prim2SF in *. rewrite !FloatAxioms.mul_spec in *.
  change (ord (Prim2SF 0)) with 0 in Hc. unfold SF64mul in *.
  apply SFmul_mono; try assumption; try apply Prim2SF_valid.
Qed.

(** Subtraction is antitone in the subtrahend wherever it is defined. *)
Lemma float_sub_mono (d x y : float) :
  (x <=? y)%float = true ->
  is_nan (d - x) = false -> is_nan (d - y) = false ->
  (d - y <=? d - x)%float = true.
Proof.
  intros Hxy Nx Ny. apply leb_ord in Hxy as (Mx & My & Hxy).
  apply leb_ord. repeat split; try assumption.
  rewrite !is_nan_Prim2SF in *. rewrite !FloatAxioms.sub_spec in *.
  unfold SF64sub in *.
  apply SFsub_mono; try assumption; try apply Prim2SF_valid.
Qed.

Lemma float_sub_nan (d x : float) : is_nan (d - x) = false -> is_nan x = false.
Proof.
  rewrite !is_nan_Prim2SF, FloatAxioms.sub_spec.
  destruct (Prim2SF d), (Prim2SF x); cbn; congruence.
Qed.

Lemma float_ltb_leb (x y : float) : (x <? y)%float = true -> (x <=? y)%float = true.
Proof.
  intros H. apply ltb_ord in H as (Nx & Ny & H). apply leb_ord. repeat split; auto. lia.
Qed.

(** The fee term grows and the profit shrinks with the fee rate. *)
Lemma profit_antitone (d base f1 f2 : float) :
  (0 <? base)%float = true -> (f1 <? f2)%float = true ->
  is_nan (d - base * f1) = false -> is_nan (d - base * f2) = false ->
  (d - base * f2 <=? d - base * f1)%float = true.
Proof.
  intros Hb Hf N1 N2.
  apply float_sub_mono; try assumption.
  apply float_mul_mono; try assumption.
  - now apply float_ltb_leb.
  - now apply float_sub_nan in N1.
  - now apply float_sub_nan in N2.
Qed.

(** On two priced legs the calendar pricer is premiumDiff - fees. *)
Lemma calendar_spread_on_priced
    (optionType : string) (strike : Z) (shorterLeg longerLeg : dict)
    (spotRate feeRate : float) :
  priced shorterLeg = true -> priced longerLeg = true ->
  calculate_calendar_spread_arbitrage optionType strike shorterLeg longerLeg
    spotRate feeRate
  = Ok ((bid shorterLeg * spotRate - ask longerLeg * spotRate)
        - calendar_fee_base shorterLeg longerLeg spotRate * feeRate)%float.
Proof.
  intros Hs Hl. unfold calculate_calendar_spread_arbitrage.
  pose proof (priced_complete _ Hs) as Cs. pose proof (priced_complete _ Hl) as Cl.
  unfold leg_incomplete in Cs, Cl.
  apply orb_false_iff in Cs as [Csa Csb]. apply orb_false_iff in Cl as [Cla Clb].
  rewrite Csa, Csb, Cla, Clb. simpl.
  pose proof (getitem_mul_float shorterLeg "bid_price" spotRate (priced_bid _ Hs)) as Es.
  pose proof (getitem_mul_float longerLeg "ask_price" spotRate (priced_ask _ Hl)) as El.
  destruct (getitem shorterLeg "bid_price") as [sb|]; simpl in *; [|discriminate].
  rewrite Es. simpl.
  destruct (getitem longerLeg "ask_price") as [la|]; simpl in *; [|discriminate].
  rewrite El. reflexivity.
Qed.

(** ** The box spread *)

(** C1, as the claim words it, fails: with the spot rate factored out of the
    sums the formula rounds differently from the code, which converts each
    leg first.  On [legs_rounding] the code returns 306.18729999999999 and
    the factored formula gives 306.18730000000011. *)
Lemma box_spread_factored_differs :
  ~ (forall (k1 k2 : Z) (l0 l1 l2 l3 : dict) (spotRate feeRate : float),
       priced l0 = true -> priced l1 = true ->
       priced l2 = true -> priced l3 = true ->
       calculate_box_spread_arbitrage k1 k2 [l0; l1; l2; l3] spotRate feeRate
       = box_spread_factored k1 k2 l0 l1 l2 l3 spotRate feeRate).
Proof.
  intros H.
  specialize (H 60000 61000
    (quote (VFloat 0.0186) (VFloat 0.0185)) (quote (VFloat 0.0009) (VFloat 0.0008))
    (quote (VFloat 0.0137) (VFloat 0.0136)) (quote (VFloat 0.0057) (VFloat 0.0056))
    70000.0%float 0.0003%float eq_refl eq_refl eq_refl eq_refl).
  apply (f_equal (fun r => match r with
                           | Ok p => (p <? 306.1873000000001)%float
                           | Raise _ => false
                           end)) in H.
  vm_compute in H. discriminate H.
Qed.

(** C1 (amended): on four legs whose prices are all present and numeric, and
    with [k2 - k1] in the float range, the box pricer returns exactly
    theoreticalValue - netPremium - fees of the five valuation steps, every
    leg price being multiplied by the spot rate before the sums are taken. *)
Theorem box_spread_value
    (k1 k2 : Z) (l0 l1 l2 l3 : dict) (spotRate feeRate t : float) :
  priced l0 = true -> priced l1 = true -> priced l2 = true -> priced l3 = true ->
  float_of_int (k2 - k1) = Ok t ->
  calculate_box_spread_arbitrage k1 k2 [l0; l1; l2; l3] spotRate feeRate
  = Ok (t - ((ask l0 * spotRate + ask l3 * spotRate)
              - (bid l1 * spotRate + bid l2 * spotRate))
          - (ask l0 * spotRate + bid l1 * spotRate
              + bid l2 * spotRate + ask l3 * spotRate) * feeRate)%float.
Proof.
  intros H0 H1 H2 H3 Ht.
  rewrite box_spread_on_priced by assumption.
  unfold box_spread_steps. now rewrite Ht.
Qed.

(** The profit case of the tests, step by step. *)
Lemma box_spread_value_witness :
  calculate_box_spread_arbitrage 60000 61000 legs_positive 70000.0 0.0003
  = Ok (1000 - ((0.0050 * 70000.0 + 0.0041 * 70000.0)
                 - (0.0020 * 70000.0 + 0.0010 * 70000.0))
          - (0.0050 * 70000.0 + 0.0020 * 70000.0
              + 0.0010 * 70000.0 + 0.0041 * 70000.0) * 0.0003)%float.
Proof.
  apply (box_spread_value 60000 61000
           (quote (VFloat 0.0050) (VFloat 0.0049)) (quote (VFloat 0.0021) (VFloat 0.0020))
           (quote (VFloat 0.0011) (VFloat 0.0010)) (quote (VFloat 0.0041) (VFloat 0.0040))
           70000.0 0.0003 1000); reflexivity.
Defined.

(** C2: when any one of the four legs has its ask or its bid price absent
    (key missing or bound to None), the box pricer returns negative infinity,
    whatever the other legs hold. *)
Theorem box_spread_guard
    (k1 k2 : Z) (leg_data : list dict) (spotRate feeRate : float)
    (i : nat) (leg : dict) :
  length leg_data = 4%nat ->
  leg_data !! i = Some leg ->
  absent leg "ask_price" \/ absent leg "bid_price" ->
  calculate_box_spread_arbitrage k1 k2 leg_data spotRate feeRate = Ok neg_infinity.
Proof.
  intros _ Hi Ha. unfold calculate_box_spread_arbitrage.
  now rewrite (absent_guard _ _ _ Hi Ha).
Qed.

(** Leg 2 has no bid price at all. *)
Lemma box_spread_guard_witness :
  calculate_box_spread_arbitrage 60000 61000 legs_missing 70000.0 0.0003
  = Ok neg_infinity.
Proof.
  apply (box_spread_guard 60000 61000 legs_missing 70000.0 0.0003 2
           {[ "ask_price" := VFloat 0.0011 ]}).
  - reflexivity.
  - reflexivity.
  - right. left. reflexivity.
Defined.

(** C5: on the profit case of the tests the box pricer returns a float within
    1e-5 of 572.7459, both as exact rationals and by the float comparison
    [abs (r - 572.7459) <= 1e-5] the test performs. *)
Theorem box_spread_positive_profit :
  exists r : float,
    calculate_box_spread_arbitrage 60000 61000 legs_positive 70000.0 0.0003 = Ok r
    /\ Qwithin (1 # 100000) (5727459 # 10000) r = true
    /\ (abs (r - 572.7459) <=? 1e-5)%float = true.
Proof.
  exists 572.74590000000001%float.
  split; [|split]; vm_compute; reflexivity.
Qed.

(** On the legs of the loss case of the tests the code returns 425.7396,
    which is positive: net premium 574, fees 0.2604, strikes 1000 apart. *)
Remark box_spread_loss_case :
  exists r : float,
    calculate_box_spread_arbitrage 60000 61000 legs_negative 70000.0 0.0003 = Ok r
    /\ (0 <? r)%float = true
    /\ Qwithin (1 # 100000) (4257396 # 10000) r = true.
Proof.
  exists 425.7396%float. repeat split; vm_compute; reflexivity.
Qed.

(** C6 fails on the code: a bid price bound to the string "*" is not None, so
    the guard lets it through and the multiplication by the spot rate raises
    TypeError; the test expects negative infinity. *)
Theorem box_spread_placeholder_raises :
  calculate_box_spread_arbitrage 60000 61000 legs_placeholder 70000.0 0.0003
  = Raise TypeError.
Proof. vm_compute. reflexivity. Qed.

(** C9, as the claim words it, fails: a short list with an entry that misses
    a price returns negative infinity from the guard. *)
Lemma box_spread_short_list_returns :
  ~ (forall (k1 k2 : Z) (leg_data : list dict) (spotRate feeRate : float),
       (length leg_data < 4)%nat ->
       exists e, calculate_box_spread_arbitrage k1 k2 leg_data spotRate feeRate
                 = Raise e).
Proof.
  intros H.
  destruct (H 60000 61000 [∅] 70000.0%float 0.0003%float) as [e He].
  - simpl. lia.
  - vm_compute in He. discriminate He.
Qed.

(** C9 (amended): the length is not verified; on a list of fewer than four
    entries that are all complete the box pricer raises instead of returning,
    and the exception is IndexError when the prices of those entries are
    numeric. *)
Theorem box_spread_short_list
    (k1 k2 : Z) (leg_data : list dict) (spotRate feeRate : float) :
  (length leg_data < 4)%nat ->
  Forall complete leg_data ->
  (exists e, calculate_box_spread_arbitrage k1 k2 leg_data spotRate feeRate
             = Raise e)
  /\ (Forall (fun leg => priced leg = true) leg_data ->
      calculate_box_spread_arbitrage k1 k2 leg_data spotRate feeRate
      = Raise IndexError).
Proof.
  intros Hlen Hc. pose proof (Forall_complete_guard _ Hc) as G.
  unfold calculate_box_spread_arbitrage. rewrite G.
  assert (Hget : forall d k, complete d -> k = "ask_price" \/ k = "bid_price" ->
                 getitem d k = Ok (get d k)).
  { intros d k Hd Hk. apply getitem_get.
    apply complete_not_incomplete in Hd. unfold leg_incomplete in Hd.
    apply orb_false_iff in Hd. destruct Hk as [-> | ->]; tauto. }
  assert (Hmul : forall d k x, priced d = true -> k = "ask_price" \/ k = "bid_price" ->
                 mul_float (get d k) x = Ok (price d k * x)%float).
  { intros d k x Hd Hk. unfold mul_float. rewrite to_float_price; [reflexivity|].
    destruct Hk as [-> | ->]; [now apply priced_ask | now apply priced_bid]. }
  destruct leg_data as [|l0 [|l1 [|l2 [|l3 rest]]]]; simpl in Hlen; try lia;
    unfold index; simpl.
  - split; eauto.
  - inversion_clear Hc as [|? ? C0 _].
    rewrite (Hget l0 "ask_price") by auto. simpl. split.
    + destruct (mul_float (get l0 "ask_price") spotRate); simpl; eauto.
    + intros P. inversion_clear P as [|? ? P0 _].
      rewrite Hmul by auto. reflexivity.
  - inversion_clear Hc as [|? ? C0 Hc']. inversion_clear Hc' as [|? ? C1 _].
    rewrite (Hget l0 "ask_price"), (Hget l1 "bid_price") by auto. simpl. split.
    + destruct (mul_float (get l0 "ask_price") spotRate); simpl; eauto.
      destruct (mul_float (get l1 "bid_price") spotRate); simpl; eauto.
    + intros P. inversion_clear P as [|? ? P0 P']. inversion_clear P' as [|? ? P1 _].
      rewrite !Hmul by auto. reflexivity.
  - inversion_clear Hc as [|? ? C0 Hc']. inversion_clear Hc' as [|? ? C1 Hc''].
    inversion_clear Hc'' as [|? ? C2 _].
    rewrite (Hget l0 "ask_price"), (Hget l1 "bid_price"), (Hget l2 "bid_price") by auto.
    simpl. split.
    + destruct (mul_float (get l0 "ask_price") spotRate); simpl; eauto.
      destruct (mul_float (get l1 "bid_price") spotRate); simpl; eauto.
      destruct (mul_float (get l2 "bid_price") spotRate); simpl; eauto.
    + intros P. inversion_clear P as [|? ? P0 P']. inversion_clear P' as [|? ? P1 P''].
      inversion_clear P'' as [|? ? P2 _].
      rewrite !Hmul by auto. reflexivity.
Qed.

(** Two complete legs: TypeError when a price is a string, IndexError when
    the prices are numbers. *)
Lemma box_spread_short_list_witness :
  (exists e, calculate_box_spread_arbitrage 60000 61000
               [quote (VFloat 0.0050) (VFloat 0.0049);
                quote (VFloat 0.0021) (VStr "*")] 70000.0 0.0003 = Raise e)
  /\ calculate_box_spread_arbitrage 60000 61000
       [quote (VFloat 0.0050) (VFloat 0.0049);
        quote (VFloat 0.0021) (VFloat 0.0020)] 70000.0 0.0003 = Raise IndexError.
Proof.
  assert (C : forall a b, a <> VNone -> b <> VNone -> complete (quote a b)).
  { intros a b Ha Hb. split; [exists a | exists b]; split; auto. }
  split.
  - apply (box_spread_short_list 60000 61000
             [quote (VFloat 0.0050) (VFloat 0.0049);
              quote (VFloat 0.0021) (VStr "*")] 70000.0 0.0003).
    + simpl. lia.
    + repeat constructor; apply C; discriminate.
  - apply (box_spread_short_list 60000 61000
             [quote (VFloat 0.0050) (VFloat 0.0049);
              quote (VFloat 0.0021) (VFloat 0.0020)] 70000.0 0.0003).
    + simpl. lia.
    + repeat constructor; apply C; discriminate.
    + repeat constructor.
Defined.

(** C10: the guard runs over every entry of the list.  (i) A list of any
    length with an entry whose ask or bid price is absent makes the box pricer
    return negative infinity, without raising.  (ii) On a list of more than
    four complete entries the result is that of any other list of complete
    entries with the same first four: entries from index 4 on do not
    affect it. *)
Theorem box_spread_guard_all_entries (k1 k2 : Z) (spotRate feeRate : float) :
  (forall (leg_data : list dict) (i : nat) (leg : dict),
     leg_data !! i = Some leg ->
     absent leg "ask_price" \/ absent leg "bid_price" ->
     calculate_box_spread_arbitrage k1 k2 leg_data spotRate feeRate
     = Ok neg_infinity)
  /\ (forall leg_data leg_data' : list dict,
        (4 < length leg_data)%nat ->
        Forall complete leg_data ->
        Forall complete leg_data' ->
        take 4 leg_data' = take 4 leg_data ->
        calculate_box_spread_arbitrage k1 k2 leg_data' spotRate feeRate
        = calculate_box_spread_arbitrage k1 k2 leg_data spotRate feeRate).
Proof.
  split.
  - intros leg_data i leg Hi Ha. unfold calculate_box_spread_arbitrage.
    now rewrite (absent_guard _ _ _ Hi Ha).
  - intros leg_data leg_data' _ Hc Hc' Htake.
    destruct (box_spread_take4 k1 k2 leg_data spotRate feeRate
                (Forall_complete_guard _ Hc)) as [_ ->].
    destruct (box_spread_take4 k1 k2 leg_data' spotRate feeRate
                (Forall_complete_guard _ Hc')) as [_ ->].
    now rewrite Htake.
Qed.

(** A two-entry list with a None price, and the profit case followed by
    different fifth and sixth entries. *)
Lemma box_spread_guard_all_entries_witness :
  calculate_box_spread_arbitrage 60000 61000
    [quote (VStr "*") (VFloat 0.0049); quote (VFloat 0.0021) VNone] 70000.0 0.0003
  = Ok neg_infinity
  /\ calculate_box_spread_arbitrage 60000 61000
       (legs_positive ++ [quote (VStr "*") (VStr "-")]) 70000.0 0.0003
     = calculate_box_spread_arbitrage 60000 61000
         (legs_positive ++ [quote (VFloat 1.5) (VFloat 0.5); quote (VInt 7) (VInt 3)])
         70000.0 0.0003.
Proof.
  assert (C : forall a b, a <> VNone -> b <> VNone -> complete (quote a b)).
  { intros a b Ha Hb. split; [exists a | exists b]; split; auto. }
  destruct (box_spread_guard_all_entries 60000 61000 70000.0 0.0003) as [Hi Hii].
  split.
  - apply (Hi _ 1%nat (quote (VFloat 0.0021) VNone)).
    + reflexivity.
    + right. right. reflexivity.
  - apply Hii.
    + simpl. lia.
    + repeat constructor; apply C; discriminate.
    + repeat constructor; apply C; discriminate.
    + reflexivity.
Defined.

(** ** The calendar spread *)

(** C3: on two legs whose bid and ask prices are all present and numeric the
    calendar pricer returns exactly premiumDiff - fees, that is
    (bid(shorter) * spotRate - ask(longer) * spotRate)
    - (bid(shorter) * spotRate + ask(longer) * spotRate) * feeRate. *)
Theorem calendar_spread_value
    (optionType : string) (strike : Z) (shorterLeg longerLeg : dict)
    (spotRate feeRate : float) :
  priced shorterLeg = true -> priced longerLeg = true ->
  calculate_calendar_spread_arbitrage optionType strike shorterLeg longerLeg
    spotRate feeRate
  = Ok ((bid shorterLeg * spotRate - ask longerLeg * spotRate)
        - (bid shorterLeg * spotRate + ask longerLeg * spotRate) * feeRate)%float.
Proof.
  intros Hs Hl. now rewrite calendar_spread_on_priced.
Qed.

(** A calendar spread on two legs of the test data. *)
Lemma calendar_spread_value_witness :
  calculate_calendar_spread_arbitrage "CALL" 60000
    (quote (VFloat 0.0050) (VFloat 0.0049)) (quote (VFloat 0.0041) (VInt 0))
    70000.0 0.0003
  = Ok ((0.0049 * 70000.0 - 0.0041 * 70000.0)
        - (0.0049 * 70000.0 + 0.0041 * 70000.0) * 0.0003)%float.
Proof.
  apply (calendar_spread_value "CALL" 60000
           (quote (VFloat 0.0050) (VFloat 0.0049)) (quote (VFloat 0.0041) (VInt 0))
           70000.0 0.0003); reflexivity.
Defined.

(** C4: when either leg has its bid or its ask price absent the calendar
    pricer returns negative infinity, whatever the other leg, the option
    type, the strike and the rates are. *)
Theorem calendar_spread_guard
    (optionType : string) (strike : Z) (shorterLeg longerLeg : dict)
    (spotRate feeRate : float) :
  absent shorterLeg "bid_price" \/ absent shorterLeg "ask_price"
  \/ absent longerLeg "bid_price" \/ absent longerLeg "ask_price" ->
  calculate_calendar_spread_arbitrage optionType strike shorterLeg longerLeg
    spotRate feeRate
  = Ok neg_infinity.
Proof.
  intros H. unfold calculate_calendar_spread_arbitrage.
  rewrite <- !is_none_get in H.
  destruct H as [H | [H | [H | H]]]; rewrite H; rewrite ?orb_true_r; reflexivity.
Qed.

(** The longer leg has its ask price bound to None. *)
Lemma calendar_spread_guard_witness :
  calculate_calendar_spread_arbitrage "PUT" 61000
    (quote (VFloat 0.0050) (VStr "*")) (quote VNone (VFloat 0.0040)) 70000.0 nan
  = Ok neg_infinity.
Proof.
  apply calendar_spread_guard. right. right. right. right. reflexivity.
Defined.

(** C8: the calendar pricer does not look at the option type or the strike:
    two calls that differ only there give the same result. *)
Theorem calendar_spread_ignores_type_and_strike
    (optionType optionType' : string) (strike strike' : Z)
    (shorterLeg longerLeg : dict) (spotRate feeRate : float) :
  calculate_calendar_spread_arbitrage optionType strike shorterLeg longerLeg
    spotRate feeRate
  = calculate_calendar_spread_arbitrage optionType' strike' shorterLeg longerLeg
      spotRate feeRate.
Proof. reflexivity. Qed.

(** ** Fee monotonicity *)

(** C7, as the claim words it, fails for both pricers: two fee rates that
    differ in the last digits give the same profit, because the difference
    of the fee terms is rounded away.  With the legs of the profit case,
    the fee rates 0.0003 and 0.0003000000000000001 both give 572.7459 on the
    box spread and 55.811 on the calendar spread. *)
Lemma fee_monotonicity_not_strict :
  ~ (forall (k1 k2 : Z) (l0 l1 l2 l3 : dict) (spotRate f1 f2 p1 p2 : float),
       priced l0 = true -> priced l1 = true ->
       priced l2 = true -> priced l3 = true ->
       (0 <? box_fee_base l0 l1 l2 l3 spotRate)%float = true ->
       (f1 <? f2)%float = true ->
       calculate_box_spread_arbitrage k1 k2 [l0; l1; l2; l3] spotRate f1 = Ok p1 ->
       calculate_box_spread_arbitrage k1 k2 [l0; l1; l2; l3] spotRate f2 = Ok p2 ->
       (p2 <? p1)%float = true)
  /\ ~ (forall (optionType : string) (strike : Z) (shorterLeg longerLeg : dict)
           (spotRate f1 f2 p1 p2 : float),
         priced shorterLeg = true -> priced longerLeg = true ->
         (0 <? calendar_fee_base shorterLeg longerLeg spotRate)%float = true ->
         (f1 <? f2)%float = true ->
         calculate_calendar_spread_arbitrage optionType strike shorterLeg longerLeg
           spotRate f1 = Ok p1 ->
         calculate_calendar_spread_arbitrage optionType strike shorterLeg longerLeg
           spotRate f2 = Ok p2 ->
         (p2 <? p1)%float = true).
Proof.
  split; intros H.
  - specialize (H 60000 61000
      (quote (VFloat 0.0050) (VFloat 0.0049)) (quote (VFloat 0.0021) (VFloat 0.0020))
      (quote (VFloat 0.0011) (VFloat 0.0010)) (quote (VFloat 0.0041) (VFloat 0.0040))
      70000.0%float 0.0003%float 0.0003000000000000001%float
      572.74590000000001%float 572.74590000000001%float
      eq_refl eq_refl eq_refl eq_refl eq_refl eq_refl).
    assert (E : (572.74590000000001 <? 572.74590000000001)%float = true).
    { apply H; vm_compute; reflexivity. }
    vm_compute in E. discriminate E.
  - specialize (H "CALL"%string 60000
      (quote (VFloat 0.0050) (VFloat 0.0049)) (quote (VFloat 0.0041) (VFloat 0.0040))
      70000.0%float 0.0003%float 0.0003000000000000001%float
      55.811%float 55.811%float eq_refl eq_refl eq_refl eq_refl).
    assert (E : (55.811 <? 55.811)%float = true).
    { apply H; vm_compute; reflexivity. }
    vm_compute in E. discriminate E.
Qed.

(** C7 (amended): for either pricer, with all leg prices, strikes and the
    spot rate fixed, all required prices present and numeric and the fee base
    strictly positive, the profit is a non-increasing function of the fee
    rate: for feeRate1 < feeRate2 the profits satisfy
    profit(feeRate1) >= profit(feeRate2) whenever neither of them is NaN. *)
Theorem fee_monotonicity :
  (forall (k1 k2 : Z) (l0 l1 l2 l3 : dict) (spotRate f1 f2 p1 p2 : float),
     priced l0 = true -> priced l1 = true ->
     priced l2 = true -> priced l3 = true ->
     (0 <? box_fee_base l0 l1 l2 l3 spotRate)%float = true ->
     (f1 <? f2)%float = true ->
     calculate_box_spread_arbitrage k1 k2 [l0; l1; l2; l3] spotRate f1 = Ok p1 ->
     calculate_box_spread_arbitrage k1 k2 [l0; l1; l2; l3] spotRate f2 = Ok p2 ->
     is_nan p1 = false -> is_nan p2 = false ->
     (p2 <=? p1)%float = true)
  /\ (forall (optionType : string) (strike : Z) (shorterLeg longerLeg : dict)
         (spotRate f1 f2 p1 p2 : float),
       priced shorterLeg = true -> priced longerLeg = true ->
       (0 <? calendar_fee_base shorterLeg longerLeg spotRate)%float = true ->
       (f1 <? f2)%float = true ->
       calculate_calendar_spread_arbitrage optionType strike shorterLeg longerLeg
         spotRate f1 = Ok p1 ->
       calculate_calendar_spread_arbitrage optionType strike shorterLeg longerLeg
         spotRate f2 = Ok p2 ->
       is_nan p1 = false -> is_nan p2 = false ->
       (p2 <=? p1)%float = true).
Proof.
  split.
  - intros k1 k2 l0 l1 l2 l3 s f1 f2 p1 p2 H0 H1 H2 H3 Hb Hf E1 E2 N1 N2.
    rewrite box_spread_on_priced in E1, E2 by assumption.
    unfold box_spread_steps in E1, E2.
    destruct (float_of_int (k2 - k1)) as [t|]; [|discriminate].
    cbn [bind] in E1, E2. injection E1 as <-. injection E2 as <-.
    now apply profit_antitone.
  - intros ot strike sh lo s f1 f2 p1 p2 Hs Hl Hb Hf E1 E2 N1 N2.
    rewrite calendar_spread_on_priced in E1, E2 by assumption.
    injection E1 as <-. injection E2 as <-.
    now apply profit_antitone.
Qed.

(** Fee rates 0.0003 and 0.0004 on the legs of the profit case. *)
Lemma fee_monotonicity_witness :
  (572.66120000000001 <=? 572.74590000000001)%float = true
  /\ (55.748 <=? 55.811)%float = true.
Proof.
  destruct fee_monotonicity as [Hbox Hcal]. split.
  - apply (Hbox 60000 61000
      (quote (VFloat 0.0050) (VFloat 0.0049)) (quote (VFloat 0.0021) (VFloat 0.0020))
      (quote (VFloat 0.0011) (VFloat 0.0010)) (quote (VFloat 0.0041) (VFloat 0.0040))
      70000.0%float 0.0003%float 0.0004%float); vm_compute; reflexivity.
  - apply (Hcal "CALL"%string 60000
      (quote (VFloat 0.0050) (VFloat 0.0049)) (quote (VFloat 0.0041) (VFloat 0.0040))
      70000.0%float 0.0003%float 0.0004%float); vm_compute; reflexivity.
Defined.

(** ** Which calls return and which raise *)

Lemma Exists_absent_guard (leg_data : list dict) :
  Exists (fun leg => absent leg "ask_price" \/ absent leg "bid_price") leg_data
  <-> guard_returns leg_data = true.
Proof.
  rewrite guard_returns_Exists. split; intros H; eapply Exists_impl; try exact H;
    intros leg; apply leg_incomplete_absent.
Qed.

Lemma float_of_int_raises (z : Z) (e : exn) :
  float_of_int z = Raise e -> e = OverflowError.
Proof.
  unfold float_of_int. destruct (binary_normalize prec emax z 0 false); congruence.
Qed.

Lemma mul_float_returns (v : value) (x : float) :
  (exists r, mul_float v x = Ok r) <-> numeric v = true.
Proof.
  unfold mul_float, numeric. destruct (to_float v); simpl; split; eauto.
  - intros [r H]. discriminate.
  - discriminate.
Qed.

Lemma mul_float_raises (v : value) (x : float) (e : exn) :
  mul_float v x = Raise e ->
  numeric v = false /\ (e = TypeError \/ e = OverflowError).
Proof.
  unfold mul_float, numeric. destruct v as [|f|z|s]; simpl; try congruence.
  - intros [= <-]. auto.
  - destruct (float_of_int z) eqn:E; simpl; [congruence|].
    intros [= <-]. apply float_of_int_raises in E. auto.
  - intros [= <-]. auto.
Qed.

Lemma incomplete_false_getitem (d : dict) :
  leg_incomplete d = false ->
  getitem d "ask_price" = Ok (get d "ask_price")
  /\ getitem d "bid_price" = Ok (get d "bid_price").
Proof.
  unfold leg_incomplete. rewrite orb_false_iff. intros [Ha Hb].
  split; now apply getitem_get.
Qed.

(** The arithmetic of the box pricer on its first four legs, once the guard
    has passed. *)
Lemma box_spread_past_guard
    (k1 k2 : Z) (l0 l1 l2 l3 : dict) (rest : list dict) (s fee : float) :
  guard_returns (l0 :: l1 :: l2 :: l3 :: rest) = false ->
  calculate_box_spread_arbitrage k1 k2 (l0 :: l1 :: l2 :: l3 :: rest) s fee
  = (let* c0 := mul_float (get l0 "ask_price") s in
     let* r1 := mul_float (get l1 "bid_price") s in
     let* r2 := mul_float (get l2 "bid_price") s in
     let* c3 := mul_float (get l3 "ask_price") s in
     let* d := int_sub_float (k2 - k1) ((c0 + c3) - (r1 + r2))%float in
     Ok (d - (c0 + r1 + r2 + c3) * fee)%float).
Proof.
  intros G. unfold calculate_box_spread_arbitrage. rewrite G.
  apply guard_returns_Forall in G.
  inversion_clear G as [|? ? C0 G']. inversion_clear G' as [|? ? C1 G''].
  inversion_clear G'' as [|? ? C2 G3]. inversion_clear G3 as [|? ? C3 _].
  destruct (incomplete_false_getitem _ C0) as [A0 _].
  destruct (incomplete_false_getitem _ C1) as [_ B1].
  destruct (incomplete_false_getitem _ C2) as [_ B2].
  destruct (incomplete_false_getitem _ C3) as [A3 _].
  unfold index. simpl. rewrite A0. simpl.
  destruct (mul_float (get l0 "ask_price") s); simpl; [|reflexivity].
  rewrite B1. simpl.
  destruct (mul_float (get l1 "bid_price") s); simpl; [|reflexivity].
  rewrite B2. simpl.
  destruct (mul_float (get l2 "bid_price") s); simpl; [|reflexivity].
  rewrite A3. reflexivity.
Qed.

(** The arithmetic of the calendar pricer, once the guard has passed. *)
Lemma calendar_spread_past_guard
    (optionType : string) (strike : Z) (shorterLeg longerLeg : dict) (s fee : float) :
  leg_incomplete shorterLeg = false -> leg_incomplete longerLeg = false ->
  calculate_calendar_spread_arbitrage optionType strike shorterLeg longerLeg s fee
  = (let* sr := mul_float (get shorterLeg "bid_price") s in
     let* lc := mul_float (get longerLeg "ask_price") s in
     Ok ((sr - lc) - (sr + lc) * fee)%float).
Proof.
  intros Cs Cl. unfold calculate_calendar_spread_arbitrage.
  destruct (incomplete_false_getitem _ Cs) as [_ Bs].
  destruct (incomplete_false_getitem _ Cl) as [Al _].
  unfold leg_incomplete in Cs, Cl.
  apply orb_false_iff in Cs as [Csa Csb]. apply orb_false_iff in Cl as [Cla Clb].
  rewrite Csa, Csb, Cla, Clb, Bs. simpl.
  destruct (mul_float (get shorterLeg "bid_price") s); simpl; [|reflexivity].
  rewrite Al. reflexivity.
Qed.

Lemma calendar_spread_guard_fires
    (optionType : string) (strike : Z) (shorterLeg longerLeg : dict) (s fee : float) :
  leg_incomplete shorterLeg || leg_incomplete longerLeg = true ->
  calculate_calendar_spread_arbitrage optionType strike shorterLeg longerLeg s fee
  = Ok neg_infinity.
Proof.
  intros H. unfold calculate_calendar_spread_arbitrage.
  unfold leg_incomplete in H.
  replace (is_none (get shorterLeg "bid_price") || is_none (get shorterLeg "ask_price")
           || is_none (get longerLeg "bid_price") || is_none (get longerLeg "ask_price"))
    with true; [reflexivity|].
  symmetry. rewrite !orb_true_iff in *. tauto.
Qed.

(** X1: the calendar pricer returns a value exactly when a price is absent
    (the guard answers negative infinity) or the two prices it reads, the bid
    of the shorter leg and the ask of the longer leg, are numeric; in every
    other case it raises TypeError or OverflowError, never KeyError or
    IndexError. *)
Theorem calendar_spread_returns_iff
    (optionType : string) (strike : Z) (shorterLeg longerLeg : dict)
    (spotRate feeRate : float) :
  ((exists r, calculate_calendar_spread_arbitrage optionType strike shorterLeg
                longerLeg spotRate feeRate = Ok r)
   <-> (absent shorterLeg "bid_price" \/ absent shorterLeg "ask_price"
        \/ absent longerLeg "bid_price" \/ absent longerLeg "ask_price")
       \/ (numeric (get shorterLeg "bid_price") = true
           /\ numeric (get longerLeg "ask_price") = true))
  /\ (forall e, calculate_calendar_spread_arbitrage optionType strike shorterLeg
                  longerLeg spotRate feeRate = Raise e ->
                e = TypeError \/ e = OverflowError).
Proof.
  destruct (leg_incomplete shorterLeg || leg_incomplete longerLeg) eqn:G.
  - rewrite (calendar_spread_guard_fires _ _ _ _ _ _ G). split.
    + split; [intros _; left | eauto].
      apply orb_true_iff in G. rewrite !leg_incomplete_absent in G. tauto.
    + discriminate.
  - apply orb_false_iff in G as [Cs Cl].
    rewrite (calendar_spread_past_guard _ _ _ _ _ _ Cs Cl).
    assert (NA : ~ (absent shorterLeg "bid_price" \/ absent shorterLeg "ask_price"
                    \/ absent longerLeg "bid_price" \/ absent longerLeg "ask_price")).
    { intros H.
      assert (leg_incomplete shorterLeg = true \/ leg_incomplete longerLeg = true)
        as [E|E] by (rewrite !leg_incomplete_absent; tauto); congruence. }
    destruct (mul_float (get shorterLeg "bid_price") spotRate) as [sr|e1] eqn:E1;
      [destruct (mul_float (get longerLeg "ask_price") spotRate) as [lc|e2] eqn:E2|];
      simpl.
    + split; [|discriminate]. split; [intros _; right | eauto].
      split; eapply mul_float_returns; eauto.
    + apply mul_float_raises in E2 as [N2 K2]. split.
      * split; [intros [r H]; discriminate|].
        intros [H|[_ H]]; [tauto | congruence].
      * intros e [= <-]. exact K2.
    + apply mul_float_raises in E1 as [N1 K1]. split.
      * split; [intros [r H]; discriminate|].
        intros [H|[H _]]; [tauto | congruence].
      * intros e [= <-]. exact K1.
Qed.

(** X2: the box pricer returns a value exactly when some entry misses a price
    (the guard answers negative infinity) or the list has at least four
    entries, the four prices it reads (ask of legs 0 and 3, bid of legs 1 and
    2) are numeric and [k2 - k1] is in the float range.  When it raises, every
    entry is complete and the exception is IndexError (only on fewer than four
    entries), TypeError or OverflowError, never KeyError. *)
Theorem box_spread_returns_iff
    (k1 k2 : Z) (leg_data : list dict) (spotRate feeRate : float) :
  ((exists r, calculate_box_spread_arbitrage k1 k2 leg_data spotRate feeRate = Ok r)
   <-> Exists (fun leg => absent leg "ask_price" \/ absent leg "bid_price") leg_data
       \/ (exists l0 l1 l2 l3 rest,
             leg_data = l0 :: l1 :: l2 :: l3 :: rest
             /\ numeric (get l0 "ask_price") = true
             /\ numeric (get l1 "bid_price") = true
             /\ numeric (get l2 "bid_price") = true
             /\ numeric (get l3 "ask_price") = true
             /\ exists t, float_of_int (k2 - k1) = Ok t))
  /\ (forall e, calculate_box_spread_arbitrage k1 k2 leg_data spotRate feeRate
                = Raise e ->
                Forall complete leg_data
                /\ (e = IndexError /\ (length leg_data < 4)%nat
                    \/ e = TypeError \/ e = OverflowError)).
Proof.
  destruct (guard_returns leg_data) eqn:G.
  - unfold calculate_box_spread_arbitrage. rewrite G. split.
    + split; [intros _; left; now apply Exists_absent_guard | eauto].
    + discriminate.
  - assert (NE : ~ Exists (fun leg => absent leg "ask_price" \/ absent leg "bid_price")
                     leg_data).
    { rewrite Exists_absent_guard. congruence. }
    assert (FC : Forall complete leg_data).
    { apply guard_returns_Forall in G. eapply Forall_impl; [exact G|].
      intros d. apply complete_not_incomplete. }
    destruct leg_data as [|l0 [|l1 [|l2 [|l3 rest]]]].
    2, 3, 4:
      unfold calculate_box_spread_arbitrage; rewrite G;
      apply guard_returns_Forall in G;
      repeat match goal with
             | H : Forall (fun _ => leg_incomplete _ = false) (_ :: _) |- _ =>
                 inversion_clear H
             end;
      repeat match goal with
             | H : leg_incomplete _ = false |- _ =>
                 apply incomplete_false_getitem in H as [? ?]
             end;
      unfold index; simpl;
      repeat match goal with
             | H : getitem _ _ = Ok _ |- _ => rewrite H; clear H
             end;
      simpl;
      repeat match goal with
             | |- context [mul_float ?v ?x] =>
                 let M := fresh "M" in
                 destruct (mul_float v x) eqn:M; simpl;
                 [|apply mul_float_raises in M as [? ?]]
             end;
      (split;
       [ split; [intros [? ?]; discriminate|];
         intros [?|(? & ? & ? & ? & ? & ? & _)]; [tauto | discriminate]
       | intros ? [= <-]; split; [assumption|]; simpl;
         first [tauto | left; split; [reflexivity | lia]] ]).
    + (* no entry *)
      split.
      * split; [intros [r H]; discriminate|].
        intros [H|(a & b & c & d & r & H & _)]; [tauto | discriminate].
      * intros e. vm_compute. intros [= <-]. split; [constructor|]. left. split; [reflexivity|lia].
    + (* four entries or more *)
      rewrite (box_spread_past_guard _ _ _ _ _ _ _ _ _ G).
      unfold int_sub_float.
      destruct (mul_float (get l0 "ask_price") spotRate) as [c0|e0] eqn:M0; simpl.
      2: { apply mul_float_raises in M0 as [N0 K0]. split.
           - split; [intros [r H]; discriminate|].
             intros [H|(a & b & c & d & r & [= <- <- <- <- <-] & H & _)];
               [tauto | congruence].
           - intros e [= <-]. split; [assumption | tauto]. }
      destruct (mul_float (get l1 "bid_price") spotRate) as [r1|e1] eqn:M1; simpl.
      2: { apply mul_float_raises in M1 as [N1 K1]. split.
           - split; [intros [r H]; discriminate|].
             intros [H|(a & b & c & d & r & [= <- <- <- <- <-] & _ & H & _)];
               [tauto | congruence].
           - intros e [= <-]. split; [assumption | tauto]. }
      destruct (mul_float (get l2 "bid_price") spotRate) as [r2|e2] eqn:M2; simpl.
      2: { apply mul_float_raises in M2 as [N2 K2]. split.
           - split; [intros [r H]; discriminate|].
             intros [H|(a & b & c & d & r & [= <- <- <- <- <-] & _ & _ & H & _)];
               [tauto | congruence].
           - intros e [= <-]. split; [assumption | tauto]. }
      destruct (mul_float (get l3 "ask_price") spotRate) as [c3|e3] eqn:M3; simpl.
      2: { apply mul_float_raises in M3 as [N3 K3]. split.
           - split; [intros [r H]; discriminate|].
             intros [H|(a & b & c & d & r & [= <- <- <- <- <-] & _ & _ & _ & H & _)];
               [tauto | congruence].
           - intros e [= <-]. split; [assumption | tauto]. }
      destruct (float_of_int (k2 - k1)) as [t|et] eqn:T; simpl.
      * split; [|discriminate]. split; [intros _; right | eauto].
        exists l0, l1, l2, l3, rest. split; [reflexivity|].
        repeat split; try (eapply mul_float_returns; eauto). eauto.
      * apply float_of_int_raises in T as ->. split.
        -- split; [intros [r H]; discriminate|].
           intros [H|(a & b & c & d & r & _ & _ & _ & _ & _ & t & Ht)];
             [tauto | discriminate].
        -- intros e [= <-]. split; [assumption | tauto].
Qed.

(** X3: the calendar pricer reads the bid of the shorter leg and the ask of
    the longer leg; of the other two prices it only tests whether they are
    None.  Two calls that agree on these give the same result, whatever else
    the dictionaries hold. *)
Theorem calendar_spread_reads
    (optionType optionType' : string) (strike strike' : Z)
    (shorterLeg shorterLeg' longerLeg longerLeg' : dict)
    (spotRate feeRate : float) :
  get shorterLeg "bid_price" = get shorterLeg' "bid_price" ->
  get longerLeg "ask_price" = get longerLeg' "ask_price" ->
  is_none (get shorterLeg "ask_price") = is_none (get shorterLeg' "ask_price") ->
  is_none (get longerLeg "bid_price") = is_none (get longerLeg' "bid_price") ->
  calculate_calendar_spread_arbitrage optionType strike shorterLeg longerLeg
    spotRate feeRate
  = calculate_calendar_spread_arbitrage optionType' strike' shorterLeg' longerLeg'
      spotRate feeRate.
Proof.
  intros Hb Ha Hsa Hlb.
  assert (Es : leg_incomplete shorterLeg = leg_incomplete shorterLeg')
    by (unfold leg_incomplete; now rewrite Hb, Hsa).
  assert (El : leg_incomplete longerLeg = leg_incomplete longerLeg')
    by (unfold leg_incomplete; now rewrite Ha, Hlb).
  destruct (leg_incomplete shorterLeg || leg_incomplete longerLeg) eqn:G.
  - rewrite !calendar_spread_guard_fires; [reflexivity | | assumption].
    now rewrite <- Es, <- El.
  - apply orb_false_iff in G as [Cs Cl].
    rewrite !calendar_spread_past_guard by congruence.
    now rewrite Hb, Ha.
Qed.

(** A shorter leg with another ask price and a key of its own, a longer leg
    with another bid price. *)
Lemma calendar_spread_reads_witness :
  calculate_calendar_spread_arbitrage "CALL" 60000
    (quote (VFloat 0.0050) (VFloat 0.0049)) (quote (VFloat 0.0041) (VFloat 0.0040))
    70000.0 0.0003
  = calculate_calendar_spread_arbitrage "PUT" 61000
      (<["volume" := VInt 12]> (quote (VStr "*") (VFloat 0.0049)))
      (quote (VFloat 0.0041) (VInt 0))
      70000.0 0.0003.
Proof.
  apply calendar_spread_reads; reflexivity.
Defined.

(** X4: the box pricer reads the ask of legs 0 and 3 and the bid of legs 1
    and 2; of the other price of these legs, and of the entries from index 4
    on, it only tests whether a price is None.  Two calls that agree on these
    give the same result. *)
Theorem box_spread_reads
    (k1 k2 : Z) (l0 l1 l2 l3 l0' l1' l2' l3' : dict) (rest rest' : list dict)
    (spotRate feeRate : float) :
  get l0 "ask_price" = get l0' "ask_price" ->
  get l1 "bid_price" = get l1' "bid_price" ->
  get l2 "bid_price" = get l2' "bid_price" ->
  get l3 "ask_price" = get l3' "ask_price" ->
  is_none (get l0 "bid_price") = is_none (get l0' "bid_price") ->
  is_none (get l1 "ask_price") = is_none (get l1' "ask_price") ->
  is_none (get l2 "ask_price") = is_none (get l2' "ask_price") ->
  is_none (get l3 "bid_price") = is_none (get l3' "bid_price") ->
  guard_returns rest = guard_returns rest' ->
  calculate_box_spread_arbitrage k1 k2 (l0 :: l1 :: l2 :: l3 :: rest)
    spotRate feeRate
  = calculate_box_spread_arbitrage k1 k2 (l0' :: l1' :: l2' :: l3' :: rest')
      spotRate feeRate.
Proof.
  intros A0 B1 B2 A3 N0 N1 N2 N3 R.
  assert (G : guard_returns (l0 :: l1 :: l2 :: l3 :: rest)
              = guard_returns (l0' :: l1' :: l2' :: l3' :: rest')).
  { cbn [guard_returns]. unfold leg_incomplete.
    now rewrite A0, B1, B2, A3, N0, N1, N2, N3, R. }
  destruct (guard_returns (l0 :: l1 :: l2 :: l3 :: rest)) eqn:E.
  - unfold calculate_box_spread_arbitrage. now rewrite E, <- G.
  - rewrite !box_spread_past_guard by congruence.
    now rewrite A0, B1, B2, A3.
Qed.

(** The profit case with the unused prices replaced and a fifth entry. *)
Lemma box_spread_reads_witness :
  calculate_box_spread_arbitrage 60000 61000 legs_positive 70000.0 0.0003
  = calculate_box_spread_arbitrage 60000 61000
      [ quote (VFloat 0.0050) (VStr "*");
        quote (VInt 7) (VFloat 0.0020);
        <["volume" := VInt 12]> (quote (VFloat 0.5) (VFloat 0.0010));
        quote (VFloat 0.0041) (VFloat 0.0040);
        quote (VStr "ask") (VStr "bid") ] 70000.0 0.0003.
Proof.
  apply box_spread_reads; reflexivity.
Defined.

(** ** Results of rounding are valid floats *)

Lemma rounded_valid (s : bool) (q E : Z) :
  -1074 <= E -> 0 <= q <= 2 ^ 53 -> (-1074 < E -> 2 ^ 52 <= q) ->
  valid_binary (rounded s q E) = true.
Proof.
  intros HE Hq Hn. unfold rounded.
  destruct (Z.eqb_spec q 0) as [Q0|Q0]; [reflexivity|].
  destruct (Z.ltb_spec q (2 ^ 53)) as [Lt|Ge].
  - destruct (Z.leb_spec E 971) as [Le|Gt]; [|reflexivity].
    destruct q as [|p|p]; try lia. cbn [Z.to_pos SpecFloat.valid_binary].
    unfold bounded, canonical_mantissa. rewrite fexp_unfold.
    pose proof (digits2_le p 53 Lt) as D1.
    apply andb_true_iff. split; [apply Z.eqb_eq | apply Z.leb_le; exact Le].
    destruct (Z.eq_dec E (-1074)) as [->|NE]; [lia|].
    pose proof (digits2_ge p 53 ltac:(apply Hn; lia)). lia.
  - destruct (Z.leb_spec (E + 1) 971) as [Le|Gt]; [|reflexivity].
    cbn [SpecFloat.valid_binary]. unfold bounded, canonical_mantissa.
    rewrite fexp_unfold. change (Z.pos (digits2_pos (Z.to_pos (2 ^ 52)))) with 53.
    apply andb_true_iff. split; [apply Z.eqb_eq; lia | apply Z.leb_le; exact Le].
Qed.

Lemma binary_round_valid (s : bool) (m : positive) (e : Z) :
  valid_binary (binary_round prec emax s m e) = true.
Proof.
  destruct (binary_round_as_aux s m e) as (n & f & -> & _ & _ & K).
  rewrite binary_round_aux_rounded by assumption.
  set (E := fexp prec emax (Z.pos (digits2_pos n) + f)) in *.
  apply rounded_valid.
  - unfold E. rewrite fexp_unfold. lia.
  - now apply rne_digits_bound.
  - intros Hn. apply rne_ge; [lia|].
    pose proof (digits2_bounds n) as [L _].
    rewrite <- pow2_split by lia.
    replace (52 + (E - f)) with (Z.pos (digits2_pos n) - 1); [assumption|].
    unfold E in *. rewrite fexp_unfold in *. lia.
Qed.

Lemma binary_normalize_valid (z e : Z) (s : bool) :
  valid_binary (binary_normalize prec emax z e s) = true.
Proof.
  destruct z; cbn [binary_normalize]; [reflexivity | |]; apply binary_round_valid.
Qed.

(** A valid float at the integer of an infinity is that infinity. *)
Lemma ord_INF_infinity (x : spec_float) :
  valid_binary x = true -> (ord x = INF <-> x = S754_infinity false).
Proof.
  intros V. assert (PI : 0 < INF) by (apply pow2_pos; lia).
  split; [|intros ->; reflexivity].
  destruct x as [s|s| |s m e]; cbn [ord]; unfold INF in *.
  - lia.
  - destruct s; [lia | reflexivity].
  - lia.
  - pose proof (mag_bounds _ _ _ V) as B. unfold mag, INF in B. destruct s; lia.
Qed.

(** ** Conversion of an int to a float *)

(** The conversion rounds the integer; it raises exactly when the rounded
    value is an infinity. *)
Lemma float_of_int_spec (z : Z) :
  match float_of_int z with
  | Ok t => Prim2SF t = binary_normalize prec emax z 0 false
            /\ ord (Prim2SF t) = round_int (z * 2 ^ 1074)
            /\ - INF < ord (Prim2SF t) < INF
  | Raise e => e = OverflowError /\ Z.abs (round_int (z * 2 ^ 1074)) = INF
  end.
Proof.
  assert (PI : 0 < INF) by (apply pow2_pos; lia).
  pose proof (binary_normalize_valid z 0 false) as V.
  pose proof (binary_normalize_not_nan z 0 false) as N.
  pose proof (ord_binary_normalize_scale z 0 ltac:(lia)) as O.
  change (0 + 1074) with 1074 in O.
  unfold float_of_int.
  destruct (binary_normalize prec emax z 0 false) as [s|s| |s m e] eqn:E;
    try discriminate.
  - rewrite Prim2SF_SF2Prim by exact V. rewrite <- O. cbn [ord]. repeat split; lia.
  - split; [reflexivity|]. rewrite <- O. cbn [ord]. fold INF. destruct s; lia.
  - rewrite Prim2SF_SF2Prim by exact V. rewrite <- O.
    pose proof (mag_bounds _ _ _ V) as B. unfold mag in B. cbn [ord].
    repeat split; destruct s; lia.
Qed.

Lemma round_int_opp (z : Z) : round_int (- z) = - round_int z.
Proof.
  unfold round_int. destruct z as [|p|p].
  - reflexivity.
  - change (- Z.pos p) with (Z.neg p). apply ord_binary_normalize_neg.
  - change (- Z.neg p) with (Z.pos p). rewrite ord_binary_normalize_neg. lia.
Qed.

(** Integers of at most 53 bits are floats. *)
Lemma small_int_representable (z : Z) :
  0 < z <= 2 ^ 53 ->
  exists (m : positive) (e : Z),
    valid_binary (S754_finite false m e) = true
    /\ Z.pos m * 2 ^ (e + 1074) = z * 2 ^ 1074.
Proof.
  intros Hz. destruct (Z.eq_dec z (2 ^ 53)) as [->|Ne].
  - exists (Z.to_pos (2 ^ 52)), 1. split; [reflexivity|].
    rewrite Z2Pos.id by (apply pow2_pos; lia).
    rewrite <- !pow2_split by lia. reflexivity.
  - destruct z as [|p|p]; try lia.
    pose proof (digits2_le p 53 ltac:(lia)) as D.
    set (d := Z.pos (digits2_pos p)) in *.
    assert (0 < d) by (unfold d; lia).
    pose proof (pow2_pos (53 - d) ltac:(lia)) as P.
    exists (Z.to_pos (Z.pos p * 2 ^ (53 - d))), (d - 53).
    assert (Em : Z.pos (Z.to_pos (Z.pos p * 2 ^ (53 - d))) = Z.pos p * 2 ^ (53 - d))
      by (apply Z2Pos.id; lia).
    split.
    + cbn [SpecFloat.valid_binary]. unfold bounded, canonical_mantissa.
      rewrite (digits2_shift p (53 - d) _ ltac:(lia) Em). fold d.
      rewrite fexp_unfold. apply andb_true_iff.
      split; [apply Z.eqb_eq | apply Z.leb_le; change (emax - prec) with 971]; lia.
    + rewrite Em, <- Z.mul_assoc, <- pow2_split by lia. f_equal. f_equal. lia.
Qed.

Lemma round_int_small (z : Z) :
  Z.abs z <= 2 ^ 53 -> round_int (z * 2 ^ 1074) = z * 2 ^ 1074.
Proof.
  assert (P : forall v, 0 < v <= 2 ^ 53 -> round_int (v * 2 ^ 1074) = v * 2 ^ 1074).
  { intros v Hv. destruct (small_int_representable v Hv) as (m & e & V & E).
    pose proof (round_int_ord (S754_finite false m e) V eq_refl) as R.
    cbn [ord] in R. rewrite !Z.mul_1_l in R. now rewrite <- E. }
  intros Hz. destruct (Z.compare_spec z 0) as [->|L|G].
  - reflexivity.
  - replace (z * 2 ^ 1074) with (- ((- z) * 2 ^ 1074)) by lia.
    rewrite round_int_opp, P by lia. lia.
  - apply P. lia.
Qed.

(** The largest integer that converts: one less than 2^1024 - 2^970. *)
Lemma float_of_int_threshold :
  round_int ((2 ^ 1024 - 2 ^ 970) * 2 ^ 1074) = INF
  /\ round_int ((2 ^ 1024 - 2 ^ 970 - 1) * 2 ^ 1074) < INF.
Proof.
  split.
  - pose proof (float_of_int_spec (2 ^ 1024 - 2 ^ 970)) as S.
    assert (E : float_of_int (2 ^ 1024 - 2 ^ 970) = Raise OverflowError)
      by (vm_compute; reflexivity).
    rewrite E in S. destruct S as [_ S].
    pose proof (round_int_sign ((2 ^ 1024 - 2 ^ 970) * 2 ^ 1074)) as [Pz _].
    assert (0 < 2 ^ 1024 - 2 ^ 970) by (vm_compute; reflexivity).
    assert (0 < 2 ^ 1074) by (apply pow2_pos; lia).
    lia.
  - pose proof (float_of_int_spec (2 ^ 1024 - 2 ^ 970 - 1)) as S.
    destruct (float_of_int (2 ^ 1024 - 2 ^ 970 - 1)) as [t|e] eqn:E.
    + destruct S as (_ & S & B). lia.
    + exfalso. revert E. vm_compute. discriminate.
Qed.

Lemma float_of_int_raises_iff (z : Z) :
  float_of_int z = Raise OverflowError <-> 2 ^ 1024 - 2 ^ 970 <= Z.abs z.
Proof.
  assert (PI : 0 < INF) by (apply pow2_pos; lia).
  assert (P2 : 0 < 2 ^ 1074) by (apply pow2_pos; lia).
  destruct float_of_int_threshold as [T1 T2].
  assert (A : forall v, 0 <= v ->
            (round_int (v * 2 ^ 1074) = INF <-> 2 ^ 1024 - 2 ^ 970 <= v)).
  { intros v Hv. pose proof (round_int_bounds (v * 2 ^ 1074)) as B. split.
    - intros R. destruct (Z.le_gt_cases (2 ^ 1024 - 2 ^ 970) v) as [|G]; [assumption|].
      pose proof (round_int_mono (v * 2 ^ 1074) ((2 ^ 1024 - 2 ^ 970 - 1) * 2 ^ 1074)
                    ltac:(nia)). lia.
    - intros G.
      pose proof (round_int_mono ((2 ^ 1024 - 2 ^ 970) * 2 ^ 1074) (v * 2 ^ 1074)
                    ltac:(nia)). lia. }
  assert (R : Z.abs (round_int (z * 2 ^ 1074)) = INF <-> 2 ^ 1024 - 2 ^ 970 <= Z.abs z).
  { destruct (Z.le_gt_cases 0 z) as [Hz|Hz].
    - pose proof (round_int_sign (z * 2 ^ 1074)) as [Pz _].
      rewrite (Z.abs_eq z), Z.abs_eq by nia. now apply A.
    - pose proof (round_int_sign (z * 2 ^ 1074)) as [_ Nz].
      rewrite (Z.abs_neq z), Z.abs_neq by nia.
      rewrite <- round_int_opp. replace (- (z * 2 ^ 1074)) with ((- z) * 2 ^ 1074) by lia.
      apply A. lia. }
  rewrite <- R. pose proof (float_of_int_spec z) as S.
  destruct (float_of_int z) as [t|e].
  - destruct S as (_ & S & B). split; [discriminate | lia].
  - destruct S as [-> S]. tauto.
Qed.

Lemma float_of_int_mono (z z' : Z) (t t' : float) :
  z <= z' -> float_of_int z = Ok t -> float_of_int z' = Ok t' ->
  (t <=? t')%float = true.
Proof.
  intros Hz E E'.
  pose proof (float_of_int_spec z) as S. pose proof (float_of_int_spec z') as S'.
  rewrite E in S. rewrite E' in S'.
  destruct S as (F & O & _). destruct S' as (F' & O' & _).
  apply leb_ord. rewrite !is_nan_Prim2SF, F, F', !binary_normalize_not_nan.
  repeat split. rewrite <- F, <- F', O, O'. apply round_int_mono.
  assert (0 < 2 ^ 1074) by (apply pow2_pos; lia). nia.
Qed.

(** The rational of a finite float and its integer in units of 2^-1074. *)
Lemma SF2Q_ord (x : spec_float) :
  valid_binary x = true -> is_finite_sf x = true ->
  exists q : Q,
    SF2Q x = Some q /\ (q * inject_Z (2 ^ 1074) == inject_Z (ord x))%Q.
Proof.
  intros V F. destruct x as [s|s| |s m e]; try discriminate.
  - exists 0%Q. split; [reflexivity|]. cbn [ord]. ring.
  - pose proof (valid_finite _ _ _ V) as (B & _).
    eexists. split; [reflexivity|]. cbn [ord].
    rewrite !inject_Z_mult, !Zpower_Qpower by lia.
    rewrite (Qpower_plus (inject_Z 2) e 1074) by discriminate.
    change (inject_Z 2) with 2%Q.
    generalize (2 ^ e)%Q (2 ^ 1074)%Q (inject_Z (Z.pos m)). intros a b c.
    destruct s; [change (inject_Z (-1)) with (-1)%Q | change (inject_Z 1) with 1%Q];
      ring.
Qed.

(** X5: on four legs with numeric prices and strikes at most 2^53 apart the
    box pricer returns; the theoretical value is the float that equals
    [k2 - k1] exactly, and the result is the five-step value. *)
Theorem box_spread_exact_strikes
    (k1 k2 : Z) (l0 l1 l2 l3 : dict) (spotRate feeRate : float) :
  priced l0 = true -> priced l1 = true -> priced l2 = true -> priced l3 = true ->
  Z.abs (k2 - k1) <= 2 ^ 53 ->
  exists (t : float) (q : Q),
    F2Q t = Some q /\ (q == inject_Z (k2 - k1))%Q
    /\ calculate_box_spread_arbitrage k1 k2 [l0; l1; l2; l3] spotRate feeRate
       = Ok (t - ((ask l0 * spotRate + ask l3 * spotRate)
                   - (bid l1 * spotRate + bid l2 * spotRate))
               - box_fee_base l0 l1 l2 l3 spotRate * feeRate)%float.
Proof.
  intros H0 H1 H2 H3 Hk.
  pose proof (float_of_int_spec (k2 - k1)) as S.
  pose proof (round_int_small (k2 - k1) Hk) as R.
  assert (PI : 0 < INF) by (apply pow2_pos; lia).
  destruct (float_of_int (k2 - k1)) as [t|e] eqn:E.
  - destruct S as (F & O & B).
    destruct (SF2Q_ord (Prim2SF t)) as (q & Hq & Eq).
    { apply Prim2SF_valid. }
    { rewrite F. pose proof (binary_normalize_not_nan (k2 - k1) 0 false) as N.
      rewrite <- F in *. destruct (Prim2SF t) as [s|s| |s m e]; try reflexivity;
        try discriminate.
      cbn [ord] in B. fold INF in B. destruct s; lia. }
    exists t, q. split; [exact Hq|]. split.
    + rewrite O, R, inject_Z_mult in Eq.
      apply Qmult_inj_r in Eq; [exact Eq|].
      rewrite Zpower_Qpower by lia. apply Qpower_not_0. discriminate.
    + rewrite box_spread_on_priced by assumption.
      unfold box_spread_steps. rewrite E. reflexivity.
  - exfalso. destruct S as [_ S]. rewrite R in S.
    assert (Z.abs ((k2 - k1) * 2 ^ 1074) <= 2 ^ 53 * 2 ^ 1074).
    { rewrite Z.abs_mul, (Z.abs_eq (2 ^ 1074)) by (apply Z.lt_le_incl, pow2_pos; lia).
      apply Z.mul_le_mono_nonneg_r; [apply Z.lt_le_incl, pow2_pos; lia | exact Hk]. }
    assert (2 ^ 53 * 2 ^ 1074 < INF).
    { unfold INF. rewrite <- pow2_split by lia. apply Z.pow_lt_mono_r; lia. }
    lia.
Qed.

(** The profit case of the tests: strikes 1000 apart. *)
Lemma box_spread_exact_strikes_witness :
  exists (t : float) (q : Q),
    F2Q t = Some q /\ (q == inject_Z (61000 - 60000))%Q
    /\ calculate_box_spread_arbitrage 60000 61000 legs_positive 70000.0 0.0003
       = Ok (t - ((0.0050 * 70000.0 + 0.0041 * 70000.0)
                   - (0.0020 * 70000.0 + 0.0010 * 70000.0))
               - 847 * 0.0003)%float.
Proof.
  apply (box_spread_exact_strikes 60000 61000
           (quote (VFloat 0.0050) (VFloat 0.0049)) (quote (VFloat 0.0021) (VFloat 0.0020))
           (quote (VFloat 0.0011) (VFloat 0.0010)) (quote (VFloat 0.0041) (VFloat 0.0040))
           70000.0 0.0003); try reflexivity.
  vm_compute. discriminate.
Defined.

(** X6: on four legs with numeric prices the box pricer raises OverflowError
    exactly when [k2 - k1] is at least 2^1024 - 2^970 in absolute value, the
    first integer that rounds to an infinity. *)
Theorem box_spread_overflow_iff
    (k1 k2 : Z) (l0 l1 l2 l3 : dict) (spotRate feeRate : float) :
  priced l0 = true -> priced l1 = true -> priced l2 = true -> priced l3 = true ->
  (calculate_box_spread_arbitrage k1 k2 [l0; l1; l2; l3] spotRate feeRate
   = Raise OverflowError
   <-> 2 ^ 1024 - 2 ^ 970 <= Z.abs (k2 - k1)).
Proof.
  intros H0 H1 H2 H3. rewrite <- float_of_int_raises_iff.
  rewrite box_spread_on_priced by assumption. unfold box_spread_steps.
  destruct (float_of_int (k2 - k1)) as [t|e] eqn:E; simpl.
  - split; discriminate.
  - apply float_of_int_raises in E as ->. tauto.
Qed.

(** Strikes 2^1024 apart. *)
Lemma box_spread_overflow_iff_witness :
  calculate_box_spread_arbitrage 0 (2 ^ 1024) legs_positive 70000.0 0.0003
  = Raise OverflowError.
Proof.
  apply (box_spread_overflow_iff 0 (2 ^ 1024)
           (quote (VFloat 0.0050) (VFloat 0.0049)) (quote (VFloat 0.0021) (VFloat 0.0020))
           (quote (VFloat 0.0011) (VFloat 0.0010)) (quote (VFloat 0.0041) (VFloat 0.0040))
           70000.0 0.0003); try reflexivity.
  vm_compute. discriminate.
Defined.

(** ** Sums and differences of floats, by cases *)

Lemma ord_bounds (x : spec_float) :
  valid_binary x = true ->
  - INF <= ord x <= INF
  /\ (is_finite_sf x = true -> - INF < ord x < INF)
  /\ (is_finite_sf x = false -> is_nan_sf x = false -> Z.abs (ord x) = INF).
Proof.
  intros V. assert (PI : 0 < INF) by (apply pow2_pos; lia).
  destruct x as [s|s| |s m e]; cbn [ord is_finite_sf is_nan_sf]; fold INF.
  - repeat split; try discriminate; lia.
  - repeat split; try discriminate; destruct s; lia.
  - repeat split; try discriminate; lia.
  - pose proof (mag_bounds _ _ _ V) as B. unfold mag in B.
    repeat split; try discriminate; destruct s; lia.
Qed.

(** The sum of two finite floats is the rounding of the exact sum. *)
Lemma ord_SFadd_finite (x y : spec_float) :
  valid_binary x = true -> valid_binary y = true ->
  is_finite_sf x = true -> is_finite_sf y = true ->
  is_nan_sf (SFadd prec emax x y) = false
  /\ ord (SFadd prec emax x y) = round_int (ord x + ord y).
Proof.
  intros Vx Vy Fx Fy.
  destruct x as [sx|sx| |sx mx ex]; try discriminate;
    destruct y as [sy|sy| |sy my ey]; try discriminate.
  - split; destruct sx, sy; reflexivity.
  - cbn [SFadd]. split; [reflexivity|].
    pose proof (round_int_ord (S754_finite sy my ey) Vy eq_refl) as R.
    cbn [ord] in *. rewrite <- R at 1. f_equal.
  - cbn [SFadd]. split; [reflexivity|].
    pose proof (round_int_ord (S754_finite sx mx ex) Vx eq_refl) as R.
    cbn [ord] in *. rewrite <- R at 1. f_equal. lia.
  - cbn [SFadd]. split; [apply binary_normalize_not_nan|].
    pose proof (valid_finite _ _ _ Vx) as (Bx & _).
    pose proof (valid_finite _ _ _ Vy) as (By & _).
    rewrite ord_binary_normalize_scale by lia. f_equal.
    set (ez := Z.min ex ey).
    pose proof (shl_align_fst mx ex ez ltac:(unfold ez; lia)) as Ax.
    pose proof (shl_align_fst my ey ez ltac:(unfold ez; lia)) as Ay.
    rewrite Z.mul_add_distr_r. cbn [ord].
    assert (Sx : Z.pos mx * 2 ^ (ex - ez) * 2 ^ (ez + 1074) = Z.pos mx * 2 ^ (ex + 1074)).
    { rewrite <- Z.mul_assoc, <- pow2_split by (unfold ez; lia).
      f_equal. f_equal. lia. }
    assert (Sy : Z.pos my * 2 ^ (ey - ez) * 2 ^ (ez + 1074) = Z.pos my * 2 ^ (ey + 1074)).
    { rewrite <- Z.mul_assoc, <- pow2_split by (unfold ez; lia).
      f_equal. f_equal. lia. }
    unfold cond_Zopp. rewrite <- Sx, <- Sy, <- Ax, <- Ay.
    destruct sx, sy; lia.
Qed.

(** What a difference that is not NaN is worth: the rounded exact
    difference of finite operands, or the infinity the operands decide. *)
Lemma SFsub_cases (x y : spec_float) :
  valid_binary x = true -> valid_binary y = true ->
  is_nan_sf (SFsub prec emax x y) = false ->
  let r := ord (SFsub prec emax x y) in
  is_nan_sf x = false /\ is_nan_sf y = false /\ - INF <= r <= INF
  /\ ((- INF < ord x < INF /\ - INF < ord y < INF /\ r = round_int (ord x - ord y))
      \/ (r = INF /\ (ord x = INF /\ ord y < INF
                      \/ - INF < ord x < INF /\ ord y = - INF))
      \/ (r = - INF /\ (ord x = - INF /\ - INF < ord y
                        \/ - INF < ord x < INF /\ ord y = INF))).
Proof.
  intros Vx Vy N. assert (PI : 0 < INF) by (apply pow2_pos; lia).
  pose proof (ord_bounds x Vx) as (Bx & Fx & _).
  pose proof (ord_bounds y Vy) as (By & Fy & _).
  destruct (is_finite_sf x) eqn:Ex; destruct (is_finite_sf y) eqn:Ey.
  - destruct (ord_SFsub_finite x y Vx Vy Ex Ey) as [_ R]. cbv zeta. rewrite R.
    pose proof (round_int_bounds (ord x - ord y)).
    specialize (Fx eq_refl). specialize (Fy eq_refl).
    repeat split; try lia; try (destruct x; (reflexivity || discriminate));
      try (destruct y; (reflexivity || discriminate)).
  - specialize (Fx eq_refl).
    destruct y as [sy|sy| |sy my ey]; try discriminate;
      destruct x as [sx|sx| |sx mx ex]; try discriminate;
      cbn [SFsub ord is_nan_sf negb] in *; fold INF in *;
      destruct sy; cbn [negb]; repeat split; try lia.
  - specialize (Fy eq_refl).
    destruct x as [sx|sx| |sx mx ex]; try discriminate;
      destruct y as [sy|sy| |sy my ey]; try discriminate;
      cbn [SFsub ord is_nan_sf negb] in *; fold INF in *;
      destruct sx; cbn [negb]; repeat split; try lia.
  - destruct x as [sx|sx| |sx mx ex]; try discriminate;
      destruct y as [sy|sy| |sy my ey]; try discriminate;
      cbn [SFsub ord is_nan_sf negb] in *; fold INF in *;
      destruct sx, sy; try discriminate; cbn [ord]; fold INF; repeat split; try lia.
Qed.

Lemma SFadd_cases (x y : spec_float) :
  valid_binary x = true -> valid_binary y = true ->
  is_nan_sf (SFadd prec emax x y) = false ->
  let r := ord (SFadd prec emax x y) in
  is_nan_sf x = false /\ is_nan_sf y = false /\ - INF <= r <= INF
  /\ ((- INF < ord x < INF /\ - INF < ord y < INF /\ r = round_int (ord x + ord y))
      \/ (r = INF /\ (ord x = INF /\ - INF < ord y
                      \/ - INF < ord x < INF /\ ord y = INF))
      \/ (r = - INF /\ (ord x = - INF /\ ord y < INF
                        \/ - INF < ord x < INF /\ ord y = - INF))).
Proof.
  intros Vx Vy N. assert (PI : 0 < INF) by (apply pow2_pos; lia).
  pose proof (ord_bounds x Vx) as (Bx & Fx & _).
  pose proof (ord_bounds y Vy) as (By & Fy & _).
  destruct (is_finite_sf x) eqn:Ex; destruct (is_finite_sf y) eqn:Ey.
  - destruct (ord_SFadd_finite x y Vx Vy Ex Ey) as [_ R]. cbv zeta. rewrite R.
    pose proof (round_int_bounds (ord x + ord y)).
    specialize (Fx eq_refl). specialize (Fy eq_refl).
    repeat split; try lia; try (destruct x; (reflexivity || discriminate));
      try (destruct y; (reflexivity || discriminate)).
  - specialize (Fx eq_refl).
    destruct y as [sy|sy| |sy my ey]; try discriminate;
      destruct x as [sx|sx| |sx mx ex]; try discriminate;
      cbn [SFadd ord is_nan_sf negb] in *; fold INF in *;
      destruct sy; cbn [negb]; repeat split; try lia.
  - specialize (Fy eq_refl).
    destruct x as [sx|sx| |sx mx ex]; try discriminate;
      destruct y as [sy|sy| |sy my ey]; try discriminate;
      cbn [SFadd ord is_nan_sf negb] in *; fold INF in *;
      destruct sx; cbn [negb]; repeat split; try lia.
  - destruct x as [sx|sx| |sx mx ex]; try discriminate;
      destruct y as [sy|sy| |sy my ey]; try discriminate;
      cbn [SFadd ord is_nan_sf negb] in *; fold INF in *;
      destruct sx, sy; try discriminate; cbn [ord]; fold INF; repeat split; try lia.
Qed.

(** A difference grows with its first operand and shrinks with its second. *)
Lemma SFsub_mono2 (x x' y y' : spec_float) :
  valid_binary x = true -> valid_binary x' = true ->
  valid_binary y = true -> valid_binary y' = true ->
  ord x <= ord x' -> ord y' <= ord y ->
  is_nan_sf (SFsub prec emax x y) = false ->
  is_nan_sf (SFsub prec emax x' y') = false ->
  ord (SFsub prec emax x y) <= ord (SFsub prec emax x' y').
Proof.
  intros Vx Vx' Vy Vy' Hx Hy N N'.
  pose proof (SFsub_cases x y Vx Vy N) as (_ & _ & B & C).
  pose proof (SFsub_cases x' y' Vx' Vy' N') as (_ & _ & B' & C').
  cbv zeta in *.
  pose proof (round_int_mono (ord x - ord y) (ord x' - ord y') ltac:(lia)) as M.
  lia.
Qed.

(** A sum grows with both operands. *)
Lemma SFadd_mono2 (x x' y y' : spec_float) :
  valid_binary x = true -> valid_binary x' = true ->
  valid_binary y = true -> valid_binary y' = true ->
  ord x <= ord x' -> ord y <= ord y' ->
  is_nan_sf (SFadd prec emax x y) = false ->
  is_nan_sf (SFadd prec emax x' y') = false ->
  ord (SFadd prec emax x y) <= ord (SFadd prec emax x' y').
Proof.
  intros Vx Vx' Vy Vy' Hx Hy N N'.
  pose proof (SFadd_cases x y Vx Vy N) as (_ & _ & B & C).
  pose proof (SFadd_cases x' y' Vx' Vy' N') as (_ & _ & B' & C').
  cbv zeta in *.
  pose proof (round_int_mono (ord x + ord y) (ord x' + ord y') ltac:(lia)) as M.
  lia.
Qed.

Lemma SFmul_comm (x y : spec_float) : SFmul prec emax x y = SFmul prec emax y x.
Proof.
  destruct x as [sx|sx| |sx mx ex], y as [sy|sy| |sy my ey]; cbn [SFmul];
    try rewrite (xorb_comm sx sy); try reflexivity.
  now rewrite (Pos.mul_comm mx my), (Z.add_comm ex ey).
Qed.

(** A product with a zero is a zero, unless it is NaN. *)
Lemma ord_SFmul_zero (x c : spec_float) :
  valid_binary c = true -> is_nan_sf c = false -> ord c = 0 ->
  is_nan_sf (SFmul prec emax x c) = false ->
  ord (SFmul prec emax x c) = 0.
Proof.
  intros Vc Nc Oc N. assert (PI : 0 < INF) by (apply pow2_pos; lia).
  destruct c as [sc|sc| |sc mc ec]; try discriminate; cbn [ord] in Oc; fold INF in Oc.
  - destruct x as [sx|sx| |sx mx ex]; try discriminate; reflexivity.
  - destruct sc; lia.
  - pose proof (mag_bounds _ _ _ Vc) as B. unfold mag in B. destruct sc; lia.
Qed.

(** ** Primitive floats: NaN and order through the operations *)

Lemma float_sub_not_nan (x y : float) :
  is_nan (x - y) = false -> is_nan x = false /\ is_nan y = false.
Proof.
  rewrite !is_nan_Prim2SF, FloatAxioms.sub_spec. intros N.
  destruct (SFsub_cases _ _ (Prim2SF_valid x) (Prim2SF_valid y) N) as (A & B & _).
  now split.
Qed.

Lemma float_add_not_nan (x y : float) :
  is_nan (x + y) = false -> is_nan x = false /\ is_nan y = false.
Proof.
  rewrite !is_nan_Prim2SF, FloatAxioms.add_spec. intros N.
  destruct (SFadd_cases _ _ (Prim2SF_valid x) (Prim2SF_valid y) N) as (A & B & _).
  now split.
Qed.

Lemma float_mul_not_nan (x y : float) :
  is_nan (x * y) = false -> is_nan x = false /\ is_nan y = false.
Proof.
  rewrite !is_nan_Prim2SF, FloatAxioms.mul_spec. unfold SF64mul.
  destruct (Prim2SF x), (Prim2SF y); cbn [SFmul is_nan_sf]; auto.
Qed.

Lemma float_leb_refl (x : float) : is_nan x = false -> (x <=? x)%float = true.
Proof. intros N. apply leb_ord. repeat split; auto. lia. Qed.

Lemma float_sub_mono2 (x x' y y' : float) :
  (x <=? x')%float = true -> (y' <=? y)%float = true ->
  is_nan (x - y) = false -> is_nan (x' - y') = false ->
  (x - y <=? x' - y')%float = true.
Proof.
  intros Hx Hy N N'.
  apply leb_ord in Hx as (_ & _ & Hx). apply leb_ord in Hy as (_ & _ & Hy).
  apply leb_ord. repeat split; try assumption.
  rewrite !is_nan_Prim2SF in *. rewrite !FloatAxioms.sub_spec in *.
  unfold SF64sub in *. apply SFsub_mono2; try assumption; apply Prim2SF_valid.
Qed.

Lemma float_add_mono2 (x x' y y' : float) :
  (x <=? x')%float = true -> (y <=? y')%float = true ->
  is_nan (x + y) = false -> is_nan (x' + y') = false ->
  (x + y <=? x' + y')%float = true.
Proof.
  intros Hx Hy N N'.
  apply leb_ord in Hx as (_ & _ & Hx). apply leb_ord in Hy as (_ & _ & Hy).
  apply leb_ord. repeat split; try assumption.
  rewrite !is_nan_Prim2SF in *. rewrite !FloatAxioms.add_spec in *.
  unfold SF64add in *. apply SFadd_mono2; try assumption; apply Prim2SF_valid.
Qed.

Lemma float_mul_comm (x y : float) : (x * y = y * x)%float.
Proof.
  apply Prim2SF_inj. rewrite !FloatAxioms.mul_spec. apply SFmul_comm.
Qed.

(** Multiplication by a float that is not negative, on the right. *)
Lemma float_mul_mono_r (c x y : float) :
  (0 <=? c)%float = true -> (x <=? y)%float = true ->
  is_nan (x * c) = false -> is_nan (y * c) = false ->
  (x * c <=? y * c)%float = true.
Proof.
  intros Hc Hxy Nx Ny.
  pose proof Hc as Hc'. apply leb_ord in Hc' as (_ & Nc & Oc).
  change (ord (Prim2SF 0)) with 0 in Oc.
  destruct (Z.eq_dec (ord (Prim2SF c)) 0) as [Z0|NZ].
  - apply leb_ord. repeat split; try assumption.
    rewrite !is_nan_Prim2SF in *. rewrite !FloatAxioms.mul_spec in *.
    unfold SF64mul in *.
    rewrite !ord_SFmul_zero; try assumption; try apply Prim2SF_valid. lia.
  - rewrite (float_mul_comm x c), (float_mul_comm y c) in *.
    apply float_mul_mono; try assumption.
    apply ltb_ord. repeat split; try assumption.
    change (ord (Prim2SF 0)) with 0. lia.
Qed.

(** Every operand of a result that is not NaN is not NaN. *)
Ltac note_not_nan x pf :=
  lazymatch goal with
  | _ : is_nan x = false |- _ => fail
  | _ => pose proof pf
  end.

Ltac not_nan :=
  repeat match goal with
         | H : is_nan (?a - ?b) = false |- _ =>
             first [ note_not_nan a (proj1 (float_sub_not_nan a b H))
                   | note_not_nan b (proj2 (float_sub_not_nan a b H)) ]
         | H : is_nan (?a + ?b) = false |- _ =>
             first [ note_not_nan a (proj1 (float_add_not_nan a b H))
                   | note_not_nan b (proj2 (float_add_not_nan a b H)) ]
         | H : is_nan (?a * ?b) = false |- _ =>
             first [ note_not_nan a (proj1 (float_mul_not_nan a b H))
                   | note_not_nan b (proj2 (float_mul_not_nan a b H)) ]
         end.

(** A NaN operand makes the result NaN. *)
Lemma float_sub_nan_l (x y : float) : is_nan x = true -> is_nan (x - y) = true.
Proof.
  intros H. destruct (is_nan (x - y)) eqn:E; [reflexivity|].
  apply float_sub_not_nan in E. destruct E; congruence.
Qed.

Lemma float_sub_nan_r (x y : float) : is_nan y = true -> is_nan (x - y) = true.
Proof.
  intros H. destruct (is_nan (x - y)) eqn:E; [reflexivity|].
  apply float_sub_not_nan in E. destruct E; congruence.
Qed.

Lemma float_add_nan_l (x y : float) : is_nan x = true -> is_nan (x + y) = true.
Proof.
  intros H. destruct (is_nan (x + y)) eqn:E; [reflexivity|].
  apply float_add_not_nan in E. destruct E; congruence.
Qed.

Lemma float_add_nan_r (x y : float) : is_nan y = true -> is_nan (x + y) = true.
Proof.
  intros H. destruct (is_nan (x + y)) eqn:E; [reflexivity|].
  apply float_add_not_nan in E. destruct E; congruence.
Qed.

Lemma float_mul_nan_l (x y : float) : is_nan x = true -> is_nan (x * y) = true.
Proof.
  intros H. destruct (is_nan (x * y)) eqn:E; [reflexivity|].
  apply float_mul_not_nan in E. destruct E; congruence.
Qed.

Lemma float_mul_nan_r (x y : float) : is_nan y = true -> is_nan (x * y) = true.
Proof.
  intros H. destruct (is_nan (x * y)) eqn:E; [reflexivity|].
  apply float_mul_not_nan in E. destruct E; congruence.
Qed.

Create HintDb nan discriminated.
#[local] Hint Resolve float_sub_nan_l float_sub_nan_r float_add_nan_l
  float_add_nan_r float_mul_nan_l float_mul_nan_r : nan.



(** ** A zero fee rate *)

(** A positive finite float times zero is zero, and subtracting zero changes
    nothing. *)
Lemma float_sub_mul_zero (d b : float) :
  (0 <? b)%float = true -> (b <? infinity)%float = true ->
  (d - b * 0 = d)%float.
Proof.
  intros Hp Hf.
  apply ltb_ord in Hp as (_ & Nb & Hp). apply ltb_ord in Hf as (_ & _ & Hf).
  change (ord (Prim2SF 0)) with 0 in Hp.
  change (ord (Prim2SF infinity)) with INF in Hf.
  rewrite is_nan_Prim2SF in Nb. pose proof (Prim2SF_valid b) as Vb.
  assert (Z : (b * 0 = 0)%float).
  { apply Prim2SF_inj. rewrite FloatAxioms.mul_spec. unfold SF64mul.
    change (Prim2SF 0) with (S754_zero false).
    destruct (Prim2SF b) as [s|s| |s m e]; try discriminate;
      cbn [ord] in Hp, Hf; fold INF in Hf; try lia.
    - destruct s; lia.
    - pose proof (mag_bounds _ _ _ Vb) as B. unfold mag in B.
      destruct s; [lia | reflexivity]. }
  rewrite Z. apply Prim2SF_inj. rewrite FloatAxioms.sub_spec. unfold SF64sub.
  change (Prim2SF 0) with (S754_zero false).
  destruct (Prim2SF d) as [s|s| |s m e]; try reflexivity. destruct s; reflexivity.
Qed.

(** X8: with a fee rate of zero and a fee base that is positive and finite,
    no fee is charged: the box pricer returns exactly theoreticalValue -
    netPremium and the calendar pricer exactly premiumDiff. *)
Theorem zero_fee_rate :
  (forall (k1 k2 : Z) (l0 l1 l2 l3 : dict) (spotRate t : float),
     priced l0 = true -> priced l1 = true ->
     priced l2 = true -> priced l3 = true ->
     float_of_int (k2 - k1) = Ok t ->
     (0 <? box_fee_base l0 l1 l2 l3 spotRate)%float = true ->
     (box_fee_base l0 l1 l2 l3 spotRate <? infinity)%float = true ->
     calculate_box_spread_arbitrage k1 k2 [l0; l1; l2; l3] spotRate 0
     = Ok (t - ((ask l0 * spotRate + ask l3 * spotRate)
                 - (bid l1 * spotRate + bid l2 * spotRate)))%float)
  /\ (forall (optionType : string) (strike : Z) (shorterLeg longerLeg : dict)
         (spotRate : float),
       priced shorterLeg = true -> priced longerLeg = true ->
       (0 <? calendar_fee_base shorterLeg longerLeg spotRate)%float = true ->
       (calendar_fee_base shorterLeg longerLeg spotRate <? infinity)%float = true ->
       calculate_calendar_spread_arbitrage optionType strike shorterLeg longerLeg
         spotRate 0
       = Ok (bid shorterLeg * spotRate - ask longerLeg * spotRate)%float).
Proof.
  split.
  - intros k1 k2 l0 l1 l2 l3 s t H0 H1 H2 H3 Ht Hp Hf.
    rewrite box_spread_on_priced by assumption.
    unfold box_spread_steps. rewrite Ht. cbn [bind]. f_equal.
    now apply float_sub_mul_zero.
  - intros ot strike sh lo s Hs Hl Hp Hf.
    rewrite calendar_spread_on_priced by assumption. f_equal.
    now apply float_sub_mul_zero.
Qed.

(** The profit case and a calendar spread on its legs, without fees. *)
Lemma zero_fee_rate_witness :
  calculate_box_spread_arbitrage 60000 61000 legs_positive 70000.0 0
  = Ok (1000 - ((0.0050 * 70000.0 + 0.0041 * 70000.0)
                 - (0.0020 * 70000.0 + 0.0010 * 70000.0)))%float
  /\ calculate_calendar_spread_arbitrage "CALL" 60000
       (quote (VFloat 0.0050) (VFloat 0.0049)) (quote (VFloat 0.0041) (VFloat 0.0040))
       70000.0 0
     = Ok (0.0049 * 70000.0 - 0.0041 * 70000.0)%float.
Proof.
  destruct zero_fee_rate as [Hbox Hcal]. split.
  - apply (Hbox 60000 61000
             (quote (VFloat 0.0050) (VFloat 0.0049)) (quote (VFloat 0.0021) (VFloat 0.0020))
             (quote (VFloat 0.0011) (VFloat 0.0010)) (quote (VFloat 0.0041) (VFloat 0.0040))
             70000.0%float 1000%float); reflexivity.
  - apply (Hcal "CALL"%string 60000
             (quote (VFloat 0.0050) (VFloat 0.0049)) (quote (VFloat 0.0041) (VFloat 0.0040))
             70000.0%float); reflexivity.
Defined.

(** ** Monotonicity in the strikes and in the prices paid *)

(** X9: the box profit does not decrease when the strikes move apart: with
    the legs and rates fixed and [k2 - k1 <= k2' - k1'], the profit for
    [k1', k2'] is at least the profit for [k1, k2], when neither is NaN. *)
Theorem box_spread_strike_monotone
    (k1 k2 k1' k2' : Z) (l0 l1 l2 l3 : dict) (spotRate feeRate p p' : float) :
  priced l0 = true -> priced l1 = true -> priced l2 = true -> priced l3 = true ->
  k2 - k1 <= k2' - k1' ->
  calculate_box_spread_arbitrage k1 k2 [l0; l1; l2; l3] spotRate feeRate = Ok p ->
  calculate_box_spread_arbitrage k1' k2' [l0; l1; l2; l3] spotRate feeRate = Ok p' ->
  is_nan p = false -> is_nan p' = false ->
  (p <=? p')%float = true.
Proof.
  intros H0 H1 H2 H3 Hk E E' N N'.
  rewrite box_spread_on_priced in E, E' by assumption.
  unfold box_spread_steps in E, E'.
  destruct (float_of_int (k2 - k1)) as [t|] eqn:T; [|discriminate].
  destruct (float_of_int (k2' - k1')) as [t'|] eqn:T'; [|discriminate].
  cbn [bind] in E, E'. injection E as <-. injection E' as <-.
  pose proof (float_of_int_mono _ _ _ _ Hk T T') as Ht.
  pose proof N as M. pose proof N' as M'.
  apply float_sub_not_nan in M as [M _]. apply float_sub_not_nan in M' as [M' F].
  pose proof M as Q. apply float_sub_not_nan in Q as [_ Q].
  apply float_sub_mono2; try assumption; [|now apply float_leb_refl].
  apply float_sub_mono2; try assumption. now apply float_leb_refl.
Qed.

(** Strikes 1000 and 2000 apart on the legs of the profit case. *)
Lemma box_spread_strike_monotone_witness :
  (572.74590000000001 <=? 1572.7458999999999)%float = true.
Proof.
  apply (box_spread_strike_monotone 60000 61000 60000 62000
           (quote (VFloat 0.0050) (VFloat 0.0049)) (quote (VFloat 0.0021) (VFloat 0.0020))
           (quote (VFloat 0.0011) (VFloat 0.0010)) (quote (VFloat 0.0041) (VFloat 0.0040))
           70000.0 0.0003); try reflexivity.
  vm_compute. discriminate.
Defined.

(** X10: paying more never raises the profit.  With a spot rate and a fee rate
    that are not negative, raising the ask price of a leg that is bought (legs
    0 and 3 of the box spread, the longer leg of the calendar spread) does not
    raise the profit, when neither profit is NaN. *)
Theorem ask_price_monotone :
  (forall (k1 k2 : Z) (l0 l1 l2 l3 l0' l3' : dict) (spotRate feeRate p p' : float),
     priced l0 = true -> priced l1 = true -> priced l2 = true -> priced l3 = true ->
     priced l0' = true -> priced l3' = true ->
     (0 <=? spotRate)%float = true -> (0 <=? feeRate)%float = true ->
     (ask l0 <=? ask l0')%float = true -> (ask l3 <=? ask l3')%float = true ->
     calculate_box_spread_arbitrage k1 k2 [l0; l1; l2; l3] spotRate feeRate = Ok p ->
     calculate_box_spread_arbitrage k1 k2 [l0'; l1; l2; l3'] spotRate feeRate = Ok p' ->
     is_nan p = false -> is_nan p' = false ->
     (p' <=? p)%float = true)
  /\ (forall (optionType : string) (strike : Z) (shorterLeg longerLeg longerLeg' : dict)
         (spotRate feeRate p p' : float),
       priced shorterLeg = true -> priced longerLeg = true ->
       priced longerLeg' = true ->
       (0 <=? spotRate)%float = true -> (0 <=? feeRate)%float = true ->
       (ask longerLeg <=? ask longerLeg')%float = true ->
       calculate_calendar_spread_arbitrage optionType strike shorterLeg longerLeg
         spotRate feeRate = Ok p ->
       calculate_calendar_spread_arbitrage optionType strike shorterLeg longerLeg'
         spotRate feeRate = Ok p' ->
       is_nan p = false -> is_nan p' = false ->
       (p' <=? p)%float = true).
Proof.
  split.
  - intros k1 k2 l0 l1 l2 l3 l0' l3' s fee p p' H0 H1 H2 H3 H0' H3' Hs Hf A0 A3
      E E' N N'.
    rewrite box_spread_on_priced in E, E' by assumption.
    unfold box_spread_steps in E, E'.
    destruct (float_of_int (k2 - k1)) as [t|] eqn:T; [|discriminate].
    cbn [bind] in E, E'. injection E as <-. injection E' as <-.
    not_nan.
    assert (C0 : (ask l0 * s <=? ask l0' * s)%float = true)
      by (apply float_mul_mono_r; assumption).
    assert (C3 : (ask l3 * s <=? ask l3' * s)%float = true)
      by (apply float_mul_mono_r; assumption).
    apply float_sub_mono2; try assumption.
    + apply float_sub_mono2; try assumption; [now apply float_leb_refl|].
      apply float_sub_mono2; try assumption; [|now apply float_leb_refl].
      apply float_add_mono2; assumption.
    + apply float_mul_mono_r; try assumption.
      apply float_add_mono2; try assumption.
      apply float_add_mono2; try assumption; [|now apply float_leb_refl].
      apply float_add_mono2; try assumption. now apply float_leb_refl.
  - intros ot strike sh lo lo' s fee p p' Hs Hl Hl' Hsp Hf A E E' N N'.
    rewrite calendar_spread_on_priced in E, E' by assumption.
    unfold calendar_fee_base in E, E'.
    injection E as <-. injection E' as <-.
    not_nan.
    assert (C : (ask lo * s <=? ask lo' * s)%float = true)
      by (apply float_mul_mono_r; assumption).
    apply float_sub_mono2; try assumption.
    + apply float_sub_mono2; try assumption. now apply float_leb_refl.
    + apply float_mul_mono_r; try assumption.
      apply float_add_mono2; try assumption. now apply float_leb_refl.
Qed.

(** Higher asks on legs 0 and 3 of the profit case, and on the longer leg of
    a calendar spread. *)
Lemma ask_price_monotone_witness :
  (432.70389999999998 <=? 572.74590000000001)%float = true
  /\ (20.8005 <=? 55.811)%float = true.
Proof.
  destruct ask_price_monotone as [Hbox Hcal]. split.
  - apply (Hbox 60000 61000
             (quote (VFloat 0.0050) (VFloat 0.0049)) (quote (VFloat 0.0021) (VFloat 0.0020))
             (quote (VFloat 0.0011) (VFloat 0.0010)) (quote (VFloat 0.0041) (VFloat 0.0040))
             (quote (VFloat 0.0060) (VFloat 0.0049)) (quote (VFloat 0.0051) (VFloat 0.0040))
             70000.0%float 0.0003%float); vm_compute; reflexivity.
  - apply (Hcal "CALL"%string 60000
             (quote (VFloat 0.0050) (VFloat 0.0049)) (quote (VFloat 0.0041) (VFloat 0.0040))
             (quote (VFloat 0.0046) (VFloat 0.0040))
             70000.0%float 0.0003%float); vm_compute; reflexivity.
Defined.

(** ** The loss case of the tests *)

Lemma binary_round_not_nan (s : bool) (m : positive) (e : Z) :
  is_nan_sf (binary_round prec emax s m e) = false.
Proof.
  destruct s.
  - apply (binary_normalize_not_nan (Z.neg m) e false).
  - apply (binary_normalize_not_nan (Z.pos m) e false).
Qed.

(** Finite floats have a product, and a finite float minus any float other
    than NaN is not NaN. *)
Lemma float_mul_finite_not_nan (x y : float) :
  is_nan x = false -> is_nan y = false ->
  - INF < ord (Prim2SF x) < INF -> - INF < ord (Prim2SF y) < INF ->
  is_nan (x * y) = false.
Proof.
  rewrite !is_nan_Prim2SF, FloatAxioms.mul_spec. unfold SF64mul.
  pose proof (Prim2SF_valid x) as Vx. pose proof (Prim2SF_valid y) as Vy.
  intros Nx Ny Bx By.
  destruct (Prim2SF x) as [sx|sx| |sx mx ex]; try discriminate;
    destruct (Prim2SF y) as [sy|sy| |sy my ey]; try discriminate;
    cbn [ord] in Bx, By; fold INF in Bx, By;
    try (destruct sx; lia); try (destruct sy; lia); try reflexivity.
  rewrite SFmul_finite by assumption. apply binary_round_not_nan.
Qed.

Lemma float_sub_finite_not_nan (x y : float) :
  is_nan x = false -> is_nan y = false ->
  - INF < ord (Prim2SF x) < INF ->
  is_nan (x - y) = false.
Proof.
  rewrite !is_nan_Prim2SF, FloatAxioms.sub_spec. unfold SF64sub.
  pose proof (Prim2SF_valid x) as Vx. pose proof (Prim2SF_valid y) as Vy.
  intros Nx Ny Bx.
  destruct (is_finite_sf (Prim2SF y)) eqn:Fy.
  - apply ord_SFsub_finite; try assumption.
    destruct (Prim2SF x) as [sx|sx| |sx mx ex]; try discriminate; try reflexivity.
    cbn [ord] in Bx. fold INF in Bx. destruct sx; lia.
  - destruct (Prim2SF y) as [sy|sy| |sy my ey]; try discriminate.
    destruct (Prim2SF x) as [sx|sx| |sx mx ex]; try discriminate; try reflexivity.
    cbn [ord] in Bx. fold INF in Bx. destruct sx; lia.
Qed.

(** X11: on the legs and strikes of [test_box_spread_negative_profit], with
    the spot rate of the fixture, the profit is positive for every fee rate
    from 0 to 0.4 (the fixture's is 0.0003): the test's assertion
    [actual_profit < 0] does not hold. *)
Theorem box_spread_loss_case_positive (feeRate : float) :
  (0 <=? feeRate)%float = true -> (feeRate <=? 0.4)%float = true ->
  exists r : float,
    calculate_box_spread_arbitrage 60000 61000 legs_negative 70000.0 feeRate = Ok r
    /\ (0 <? r)%float = true /\ (r <? 0)%float = false.
Proof.
  intros H0 H4.
  assert (E : calculate_box_spread_arbitrage 60000 61000 legs_negative 70000.0 feeRate
              = Ok (1000 - 574 - 868 * feeRate)%float)
    by (apply box_spread_on_priced; reflexivity).
  rewrite E. eexists. split; [reflexivity|].
  assert (PI : 0 < INF) by (apply pow2_pos; lia).
  pose proof H0 as L0. apply leb_ord in L0 as (_ & Nf & O0).
  pose proof H4 as L4. apply leb_ord in L4 as (_ & _ & O4).
  change (ord (Prim2SF 0)) with 0 in O0.
  assert (B4 : ord (Prim2SF 0.4) < INF) by (vm_compute; reflexivity).
  assert (Nm : is_nan (868 * feeRate) = false).
  { apply float_mul_finite_not_nan; try assumption; try reflexivity; try lia.
    split; vm_compute; reflexivity. }
  assert (Np : is_nan (1000 - 574 - 868 * feeRate) = false).
  { apply float_sub_finite_not_nan; try assumption; try reflexivity.
    split; vm_compute; reflexivity. }
  assert (M : (1000 - 574 - 868 * 0.4 <=? 1000 - 574 - 868 * feeRate)%float = true).
  { apply float_sub_mono; try assumption; [|reflexivity].
    apply float_mul_mono; try assumption; reflexivity. }
  apply leb_ord in M as (_ & _ & M).
  assert (P : 0 < ord (Prim2SF (1000 - 574 - 868 * 0.4)%float)) by (vm_compute; reflexivity).
  split.
  - apply ltb_ord. repeat split; try assumption. change (ord (Prim2SF 0)) with 0. lia.
  - destruct (_ <? 0)%float eqn:C; [|reflexivity].
    apply ltb_ord in C as (_ & _ & C). change (ord (Prim2SF 0)) with 0 in C. lia.
Qed.

(** The fee rate of the fixture. *)
Lemma box_spread_loss_case_positive_witness :
  exists r : float,
    calculate_box_spread_arbitrage 60000 61000 legs_negative 70000.0 0.0003 = Ok r
    /\ (0 <? r)%float = true /\ (r <? 0)%float = false.
Proof.
  apply box_spread_loss_case_positive; reflexivity.
Defined.

(** ** Signs *)

Lemma ord_SFmul_nonneg (x y : spec_float) :
  valid_binary x = true -> valid_binary y = true ->
  0 <= ord x -> 0 <= ord y ->
  0 <= ord (SFmul prec emax x y).
Proof.
  intros Vx Vy Hx Hy. assert (PI : 0 < INF) by (apply pow2_pos; lia).
  destruct x as [sx|sx| |sx mx ex], y as [sy|sy| |sy my ey];
    cbn [ord] in Hx, Hy; fold INF in Hx, Hy.
  all: try (pose proof (mag_bounds _ _ _ Vx) as Bx; unfold mag in Bx).
  all: try (pose proof (mag_bounds _ _ _ Vy) as By; unfold mag in By).
  all: try (cbn [SFmul ord]; fold INF; lia).
  all: try (destruct sx; try lia; destruct sy; try lia; cbn [SFmul ord xorb]; fold INF; lia).
  destruct sx; try lia. destruct sy; try lia.
  rewrite SFmul_finite by assumption. apply ord_binary_round_bounds.
Qed.

Lemma float_mul_nonneg (x y : float) :
  (0 <=? x)%float = true -> (0 <=? y)%float = true ->
  is_nan (x * y) = false -> (0 <=? x * y)%float = true.
Proof.
  intros Hx Hy N.
  apply leb_ord in Hx as (_ & _ & Hx). apply leb_ord in Hy as (_ & _ & Hy).
  change (ord (Prim2SF 0)) with 0 in *.
  apply leb_ord. repeat split; try assumption; try reflexivity.
  change (ord (Prim2SF 0)) with 0. rewrite FloatAxioms.mul_spec.
  apply ord_SFmul_nonneg; try assumption; apply Prim2SF_valid.
Qed.

Lemma float_add_nonneg (x y : float) :
  (0 <=? x)%float = true -> (0 <=? y)%float = true ->
  is_nan (x + y) = false -> (0 <=? x + y)%float = true.
Proof.
  intros Hx Hy N.
  change 0%float with (0 + 0)%float at 1.
  apply float_add_mono2; try assumption. reflexivity.
Qed.

(** A float minus one that is at least as large is not positive. *)
Lemma float_sub_nonpos (x y : float) :
  (x <=? y)%float = true -> is_nan (x - y) = false ->
  (x - y <=? 0)%float = true.
Proof.
  intros H N. apply leb_ord in H as (_ & _ & H).
  apply leb_ord. repeat split; try assumption; try reflexivity.
  change (ord (Prim2SF 0)) with 0.
  rewrite is_nan_Prim2SF in N. rewrite FloatAxioms.sub_spec in *. unfold SF64sub in *.
  assert (PI : 0 < INF) by (apply pow2_pos; lia).
  pose proof (SFsub_cases _ _ (Prim2SF_valid x) (Prim2SF_valid y) N) as (_ & _ & B & C).
  cbv zeta in *.
  pose proof (round_int_sign (ord (Prim2SF x) - ord (Prim2SF y))) as [_ S].
  lia.
Qed.

(** A float that is not positive stays so when a float that is not negative
    is subtracted. *)
Lemma float_sub_nonpos_nonneg (d f : float) :
  (d <=? 0)%float = true -> (0 <=? f)%float = true ->
  is_nan (d - f) = false -> (d - f <=? 0)%float = true.
Proof.
  intros Hd Hf N.
  change 0%float with (0 - 0)%float at 1.
  apply float_sub_mono2; try assumption. reflexivity.
Qed.

(** X12: no edge, no profit.  With prices, spot rate and fee rate that are not
    negative, the box profit is not positive when the net premium is at least
    the theoretical value k2 - k1, and the calendar profit is not positive
    when the bid of the shorter leg does not exceed the ask of the longer
    leg (when the profit is not NaN). *)
Theorem no_edge_no_profit :
  (forall (k1 k2 : Z) (l0 l1 l2 l3 : dict) (spotRate feeRate t p : float),
     priced l0 = true -> priced l1 = true -> priced l2 = true -> priced l3 = true ->
     (0 <=? spotRate)%float = true -> (0 <=? feeRate)%float = true ->
     (0 <=? ask l0)%float = true -> (0 <=? bid l1)%float = true ->
     (0 <=? bid l2)%float = true -> (0 <=? ask l3)%float = true ->
     float_of_int (k2 - k1) = Ok t ->
     (t <=? box_net_premium l0 l1 l2 l3 spotRate)%float = true ->
     calculate_box_spread_arbitrage k1 k2 [l0; l1; l2; l3] spotRate feeRate = Ok p ->
     is_nan p = false ->
     (p <=? 0)%float = true)
  /\ (forall (optionType : string) (strike : Z) (shorterLeg longerLeg : dict)
         (spotRate feeRate p : float),
       priced shorterLeg = true -> priced longerLeg = true ->
       (0 <=? spotRate)%float = true -> (0 <=? feeRate)%float = true ->
       (0 <=? bid shorterLeg)%float = true ->
       (bid shorterLeg <=? ask longerLeg)%float = true ->
       calculate_calendar_spread_arbitrage optionType strike shorterLeg longerLeg
         spotRate feeRate = Ok p ->
       is_nan p = false ->
       (p <=? 0)%float = true).
Proof.
  split.
  - intros k1 k2 l0 l1 l2 l3 s fee t p H0 H1 H2 H3 Hs Hf A0 B1 B2 A3 Ht Hn E N.
    rewrite box_spread_on_priced in E by assumption.
    unfold box_spread_steps in E. rewrite Ht in E. cbn [bind] in E.
    injection E as <-. unfold box_net_premium in Hn. not_nan.
    apply float_sub_nonpos_nonneg; try assumption.
    + now apply float_sub_nonpos.
    + apply float_mul_nonneg; try assumption.
      repeat (apply float_add_nonneg; try assumption);
        apply float_mul_nonneg; assumption.
  - intros ot strike sh lo s fee p Hs Hl Hsp Hf B A E N.
    rewrite calendar_spread_on_priced in E by assumption.
    unfold calendar_fee_base in E. injection E as <-. not_nan.
    assert (A0 : (0 <=? ask lo)%float = true).
    { apply leb_ord in B as (_ & _ & B). apply leb_ord in A as (_ & Na & A).
      apply leb_ord. repeat split; try assumption; try reflexivity. lia. }
    apply float_sub_nonpos_nonneg; try assumption.
    + apply float_sub_nonpos; try assumption.
      apply float_mul_mono_r; assumption.
    + apply float_mul_nonneg; try assumption.
      apply float_add_nonneg; try assumption; apply float_mul_nonneg; assumption.
Qed.

(** The legs of the loss case with strikes 500 apart (net premium 574), and
    a calendar spread whose shorter bid is below the longer ask. *)
Lemma no_edge_no_profit_witness :
  (-74.260400000000004 <=? 0)%float = true
  /\ (-7.1700999999999997 <=? 0)%float = true.
Proof.
  destruct no_edge_no_profit as [Hbox Hcal]. split.
  - apply (Hbox 60000 60500
             (quote (VFloat 0.0055) (VFloat 0.0054)) (quote (VFloat 0.0015) (VFloat 0.0014))
             (quote (VFloat 0.0008) (VFloat 0.0007)) (quote (VFloat 0.0048) (VFloat 0.0047))
             70000.0%float 0.0003%float 500%float); vm_compute; reflexivity.
  - apply (Hcal "CALL"%string 60000
             (quote (VFloat 0.0041) (VFloat 0.0040)) (quote (VFloat 0.0041) (VFloat 0.0040))
             70000.0%float 0.0003%float); vm_compute; reflexivity.
Defined.

(** ** Calls that raise: instances of the characterisations *)

(** A shorter leg whose bid price is a string: TypeError. *)
Lemma calendar_spread_returns_iff_witness :
  TypeError = TypeError \/ TypeError = OverflowError.
Proof.
  apply (proj2 (calendar_spread_returns_iff "CALL" 60000
                  (quote (VFloat 0.0050) (VStr "*"))
                  (quote (VFloat 0.0041) (VFloat 0.0040)) 70000.0 0.0003) TypeError).
  vm_compute. reflexivity.
Defined.

(** Two complete legs: IndexError at the third subscript. *)
Lemma box_spread_returns_iff_witness :
  Forall complete [quote (VFloat 0.0050) (VFloat 0.0049);
                   quote (VFloat 0.0021) (VFloat 0.0020)]
  /\ (IndexError = IndexError /\ (2 < 4)%nat
      \/ IndexError = TypeError \/ IndexError = OverflowError).
Proof.
  apply (proj2 (box_spread_returns_iff 60000 61000
                  [quote (VFloat 0.0050) (VFloat 0.0049);
                   quote (VFloat 0.0021) (VFloat 0.0020)] 70000.0 0.0003) IndexError).
  vm_compute. reflexivity.
Defined.
